(** * Package exports inference (src/utils.ts)

    A shallow embedding of the exports-map utilities of [src/utils.ts]:
    [inferExportType], [extractExportFilenames], [removeExtension],
    [generatePackageExports] and its two condition builders
    [generateExportConditions] and [generateFolderPatternExportConditions].

    JavaScript strings are modelled as [string]; every pattern the code
    searches for is ASCII, so the suffix, substring and split operations
    below agree with the JavaScript ones on the code units of a path.
    The [Map] that groups entries is an insertion-ordered association list
    (the code iterates over it); the [exports] object, whose key order does
    not matter, is a [gmap string _]. *)

From Stdlib Require Import Ascii String.
From stdpp Require Import base option list strings pretty gmap.

(** ** JavaScript string primitives *)

Module Js.

(** [s.endsWith(suffix)]: some tail of [s] is [suffix]. *)
Fixpoint endsWith (s suffix : string) : bool :=
  String.eqb s suffix ||
  match s with
  | EmptyString => false
  | String _ s' => endsWith s' suffix
  end.

(** [s.includes(sub)]: [sub] is a prefix of some tail of [s]. *)
Fixpoint includes (s sub : string) : bool :=
  String.prefix sub s ||
  match s with
  | EmptyString => false
  | String _ s' => includes s' sub
  end.

(** [s.split(sep)] for a one-character separator; the result is never
    empty ([""] splits into [[""]]). *)
Fixpoint split (sep : ascii) (s : string) : list string :=
  match s with
  | EmptyString => [EmptyString]
  | String c s' =>
      if Ascii.eqb c sep then EmptyString :: split sep s'
      else match split sep s' with
           | h :: t => String c h :: t
           | [] => [String c EmptyString]
           end
  end.

(** [s.slice(0, -n)]: drop the last [n] code units. *)
Definition dropEnd (n : nat) (s : string) : string :=
  String.substring 0 (String.length s - n) s.

(** [s.slice(n)]: drop the first [n] code units. *)
Definition sliceFrom (n : nat) (s : string) : string :=
  String.substring n (String.length s - n) s.

(** Truthiness of a string: the empty string is the only falsy one. *)
Definition truthy (s : string) : bool := negb (String.eqb s "").

End Js.

(** ** Export-type inference *)

Inductive ModuleType := ESM | CJS.

Global Instance ModuleType_eq_dec : EqDecision ModuleType.
Proof. solve_decision. Defined.

(** [inferExportType(condition, previousConditions = [], filename = "")].
    The recursive call is on the tail of [previousConditions]. *)
Fixpoint inferExportType (condition : string) (previousConditions : list string)
    (filename : string) {struct previousConditions} : ModuleType :=
  let byCondition :=
    if String.eqb condition "import" then ESM
    else if String.eqb condition "require" then CJS
    else match previousConditions with
         | [] => ESM
         | newCondition :: rest => inferExportType newCondition rest filename
         end in
  if Js.truthy filename then
    if Js.endsWith filename ".d.ts" then ESM
    else if Js.endsWith filename ".mjs" then ESM
    else if Js.endsWith filename ".cjs" then CJS
    else byCondition
  else byCondition.

(** The decision list of the specification: five steps, first match wins,
    the last one walking the chain of enclosing conditions. *)
Fixpoint inferExportType_ref (c : string) (p : list string) (f : string)
    {struct p} : ModuleType :=
  if negb (String.eqb f "") && Js.endsWith f ".d.ts" then ESM
  else if Js.endsWith f ".mjs" then ESM
  else if Js.endsWith f ".cjs" then CJS
  else if String.eqb c "import" then ESM
  else if String.eqb c "require" then CJS
  else match p with
       | [] => ESM
       | c' :: p' => inferExportType_ref c' p' f
       end.

(** ** Flattening a manifest's exports declaration *)

Record OutputDescriptor := { file : string; type : option ModuleType }.

#[local] Set Warnings "-register-all".

(** [PackageJson["exports"]] as the function inspects it: absent, a string,
    or a mapping given by its [Object.entries] in iteration order (an array
    is the mapping of its indices). *)
Inductive Exports :=
  | ExportsUndefined
  | ExportsString (s : string)
  | ExportsMapping (entries : list (string * Exports)).

(** [extractExportFilenames(exports, conditions = [])].  The guard
    [!exports] holds for [undefined] and for the empty string.  The local
    [entriesOf] is the chain [.filter(...).flatMap(...)] over
    [Object.entries(exports)]. *)
Fixpoint extractExportFilenames (exports : Exports) (conditions : list string)
    : list OutputDescriptor :=
  match exports with
  | ExportsUndefined => []
  | ExportsString s =>
      if Js.truthy s then [{| file := s; type := Some ESM |}] else []
  | ExportsMapping entries =>
      (fix entriesOf (l : list (string * Exports)) : list OutputDescriptor :=
         match l with
         | [] => []
         | (condition, exports') :: l' =>
             if negb (Js.endsWith condition ".json") then
               match exports' with
               | ExportsString s =>
                   [{| file := s;
                       type := Some (inferExportType condition conditions s) |}]
               | _ => extractExportFilenames exports' (conditions ++ [condition])
               end ++ entriesOf l'
             else entriesOf l'
         end) entries
  end.

(** The reference definition of the specification, by cases on the shape
    of the declaration: nothing for [undefined], one ESM entry for a plain
    string, and for a mapping the concatenation, in iteration order, of
    what each pair gives. *)
Fixpoint extractExportFilenames_ref (e : Exports) (chain : list string)
    : list OutputDescriptor :=
  match e with
  | ExportsUndefined => []
  | ExportsString s => [{| file := s; type := Some ESM |}]
  | ExportsMapping entries =>
      flat_map
        (λ '(key, v),
           if Js.endsWith key ".json" then []
           else match v with
                | ExportsString f =>
                    [{| file := f; type := Some (inferExportType key chain f) |}]
                | ExportsMapping _ => extractExportFilenames_ref v (chain ++ [key])
                | ExportsUndefined => []
                end)
        entries
  end.

(** The same reference definition with the plain-string case restricted to
    non-empty strings: the empty string gives the empty list. *)
Fixpoint extractExportFilenames_nonempty_ref (e : Exports) (chain : list string)
    : list OutputDescriptor :=
  match e with
  | ExportsUndefined => []
  | ExportsString s =>
      if String.eqb s "" then [] else [{| file := s; type := Some ESM |}]
  | ExportsMapping entries =>
      flat_map
        (λ '(key, v),
           if Js.endsWith key ".json" then []
           else match v with
                | ExportsString f =>
                    [{| file := f; type := Some (inferExportType key chain f) |}]
                | ExportsMapping _ =>
                    extractExportFilenames_nonempty_ref v (chain ++ [key])
                | ExportsUndefined => []
                end)
        entries
  end.

(** ** Path normalisation *)

(** The alternatives of the pattern [/\.(js|mjs|cjs|ts|mts|cts|json|jsx|tsx)$/]. *)
Definition extensions : list string :=
  ["js"; "mjs"; "cjs"; "ts"; "mts"; "cts"; "json"; "jsx"; "tsx"].

(** [filename.replace(/\.(js|...|tsx)$/, "")]: the pattern is anchored at
    the end, so it matches when the name ends with a dot followed by one of
    the alternatives; the match is then cut off. *)
Definition removeExtension (filename : string) : string :=
  match List.find (λ ext, Js.endsWith filename ("." +:+ ext)) extensions with
  | Some ext => Js.dropEnd (S (String.length ext)) filename
  | None => filename
  end.

(** ** The exports-map generator *)

Record BuildEntry := { path : string; chunk : option bool }.

(** The third argument [exportImport: boolean | string[]]. *)
Inductive ExportImport :=
  | ModeBool (b : bool)
  | ModeFolders (folders : list string).

(** An [import] or [require] block. *)
Record ConditionBlock := {
  block_default : option string;
  block_types : option string
}.

(** The [conditions] object built for a group. *)
Record Conditions := {
  cond_types : option string;
  cond_import : option ConditionBlock;
  cond_require : option ConditionBlock
}.

(** The value stored under an export key: a bare path or a conditional
    object. *)
Inductive ExportValue :=
  | ExportPath (p : string)
  | ExportConditions (c : Conditions).

Abbreviation ExportMap := (gmap string ExportValue).

Record FilesByType := {
  mjs : list string;
  cjs : list string;
  dts : list string;
  dmts : list string;
  dcts : list string
}.

Definition filesByType (files : list string) : FilesByType :=
  {| mjs := List.filter (λ f, Js.endsWith f ".mjs") files;
     cjs := List.filter (λ f, Js.endsWith f ".cjs") files;
     dts := List.filter (λ f, Js.endsWith f ".d.ts") files;
     dmts := List.filter (λ f, Js.endsWith f ".d.mts") files;
     dcts := List.filter (λ f, Js.endsWith f ".d.cts") files |}.

Definition nonEmpty {A} (l : list A) : bool := 0 <? length l.

Definition hasDeclarationFiles (t : FilesByType) : bool :=
  nonEmpty (dts t) || nonEmpty (dmts t) || nonEmpty (dcts t).

Definition emptyConditions : Conditions :=
  {| cond_types := None; cond_import := None; cond_require := None |}.

Definition setTypes (v : string) (c : Conditions) : Conditions :=
  {| cond_types := Some v; cond_import := cond_import c;
     cond_require := cond_require c |}.

Definition setImport (b : ConditionBlock) (c : Conditions) : Conditions :=
  {| cond_types := cond_types c; cond_import := Some b;
     cond_require := cond_require c |}.

Definition setRequire (b : ConditionBlock) (c : Conditions) : Conditions :=
  {| cond_types := cond_types c; cond_import := cond_import c;
     cond_require := Some b |}.

(** The body of both builders after the classification: the two source
    functions run the same statements in the same order and differ only in
    the strings they store, which are the parameters here ([pmjs] is what
    is written for the [.mjs] bucket, and so on). *)
Definition buildConditions (t : FilesByType)
    (pmjs pcjs pdts pdmts pdcts : string) : Conditions :=
  let conditions := emptyConditions in
  (* Add top-level types field if we have declaration files *)
  let conditions :=
    if hasDeclarationFiles t then
      if nonEmpty (dts t) then setTypes pdts conditions
      else if nonEmpty (dmts t) then setTypes pdmts conditions
      else if nonEmpty (dcts t) then setTypes pdcts conditions
      else conditions
    else conditions in
  (* ESM imports *)
  let conditions :=
    if nonEmpty (mjs t) then
      setImport {| block_default := Some pmjs;
                   block_types := if nonEmpty (dmts t) then Some pdmts
                                  else if nonEmpty (dts t) then Some pdts
                                  else None |} conditions
    else conditions in
  (* CJS requires *)
  let conditions :=
    if nonEmpty (cjs t) then
      setRequire {| block_default := Some pcjs;
                    block_types := if nonEmpty (dcts t) then Some pdcts
                                   else if nonEmpty (dts t) then Some pdts
                                   else None |} conditions
    else conditions in
  (* If we only have declaration files, create a types-only export *)
  if negb (nonEmpty (mjs t)) && negb (nonEmpty (cjs t)) && hasDeclarationFiles t then
    let conditions :=
      if nonEmpty (dmts t) then
        setImport {| block_default := None; block_types := Some pdmts |} conditions
      else conditions in
    let conditions :=
      if nonEmpty (dcts t) then
        setRequire {| block_default := None; block_types := Some pdcts |} conditions
      else conditions in
    if nonEmpty (dts t) && negb (bool_decide (is_Some (cond_import conditions)))
       && negb (bool_decide (is_Some (cond_require conditions)))
    then setTypes pdts conditions
    else conditions
  else conditions.

(** The template strings of the builders: [`./${outDir}/${prefix}${f}`]
    and [`./${outDir}/${folderName}/*<ext>`]. *)
Definition literalPath (outDir pre f : string) : string :=
  "./" +:+ outDir +:+ "/" +:+ pre +:+ f.

Definition wildcardPath (outDir folderName ext : string) : string :=
  "./" +:+ outDir +:+ "/" +:+ folderName +:+ "/*" +:+ ext.

(** [bucket[0]] inside a template string; the builders only read it from a
    bucket they have checked to be non-empty. *)
Definition first (bucket : list string) : string := List.hd "undefined" bucket.

(** [generateExportConditions(files, outDir, prefix = "")]. *)
Definition generateExportConditions (files : list string) (outDir : string)
    (prefix : string) : ExportValue :=
  let t := filesByType files in
  let literal bucket := literalPath outDir prefix (first bucket) in
  if (length files =? 1) && negb (hasDeclarationFiles t)
     && negb (Js.includes (first files) ".d.")
  then ExportPath (literal files)
  else ExportConditions
         (buildConditions t (literal (mjs t)) (literal (cjs t))
            (literal (dts t)) (literal (dmts t)) (literal (dcts t))).

(** [generateFolderPatternExportConditions(files, outDir, folderName)]. *)
Definition generateFolderPatternExportConditions (files : list string)
    (outDir : string) (folderName : string) : ExportValue :=
  let t := filesByType files in
  let pattern := wildcardPath outDir folderName in
  ExportConditions
    (buildConditions t (pattern ".mjs") (pattern ".cjs")
       (pattern ".d.ts") (pattern ".d.mts") (pattern ".d.cts")).

(** The [Map<string, string[]>] of groups, in insertion order. *)
Definition EntryGroups := list (string * list string).

(** [if (!entryGroups.has(baseKey)) entryGroups.set(baseKey, []);
     entryGroups.get(baseKey)!.push(path)]. *)
Fixpoint groupPush (baseKey path : string) (entryGroups : EntryGroups) : EntryGroups :=
  match entryGroups with
  | [] => [(baseKey, [path])]
  | (k, files) :: rest =>
      if String.eqb k baseKey then (k, files ++ [path]) :: rest
      else (k, files) :: groupPush baseKey path rest
  end.

(** [entry.chunk] as a condition: an absent flag is falsy. *)
Definition isChunk (entry : BuildEntry) : bool :=
  match chunk entry with Some true => true | _ => false end.

(** The test that makes the loop [continue] on a chunk. *)
Definition skippedChunk (entry : BuildEntry) : bool :=
  isChunk entry && negb (Js.includes (path entry) ".d.").

(** [pathWithoutExt] after both cuts: the extension, then a trailing [.d]. *)
Definition pathWithoutExt (path : string) : string :=
  let pathWithoutExt := removeExtension path in
  if Js.endsWith pathWithoutExt ".d" then Js.dropEnd 2 pathWithoutExt
  else pathWithoutExt.

Definition filterFolders (exportImport : ExportImport) : list string :=
  match exportImport with ModeFolders l => l | ModeBool _ => [] end.

Definition shouldIncludeAll (exportImport : ExportImport) : bool :=
  match exportImport with
  | ModeBool b => b
  | ModeFolders l => length l =? 0
  end.

(** [filterFolders.includes(folderName)]. *)
Definition arrayHas (l : list string) (x : string) : bool :=
  existsb (String.eqb x) l.

(** [parts[0]]; [split] never returns an empty array. *)
Definition firstPart (parts : list string) : string := List.hd "undefined" parts.

Definition baseKeyOf (parts : list string) : string :=
  if 1 <? length parts then "./" +:+ firstPart parts else ".".

(** The selective-mode test that makes the loop [continue]. *)
Definition filteredOut (exportImport : ExportImport) (parts : list string) : bool :=
  negb (shouldIncludeAll exportImport)
  && (0 <? length (filterFolders exportImport))
  && negb (arrayHas (filterFolders exportImport) (firstPart parts)).

(** One iteration of the grouping loop. *)
Definition groupEntry (exportImport : ExportImport) (entryGroups : EntryGroups)
    (entry : BuildEntry) : EntryGroups :=
  if skippedChunk entry then entryGroups
  else
    let parts := Js.split "/" (pathWithoutExt (path entry)) in
    if filteredOut exportImport parts then entryGroups
    else groupPush (baseKeyOf parts) (path entry) entryGroups.

Definition groupEntries (exportImport : ExportImport) (buildEntries : list BuildEntry)
    : EntryGroups :=
  fold_left (groupEntry exportImport) buildEntries [].

(** [exportConditions && Object.keys(exportConditions).length > 0]: a
    string has one key per code unit, a conditions object one per field
    that was assigned. *)
Definition hasKeys (v : ExportValue) : bool :=
  match v with
  | ExportPath p => Js.truthy p && (0 <? String.length p)
  | ExportConditions c =>
      0 <? length (option_list (cond_types c))
           + length (option_list (cond_import c))
           + length (option_list (cond_require c))
  end.

(** The three arms of the emission loop. *)
Inductive Branch := MainEntry | FolderPattern | SingleFile.

Definition isMainEntry (baseKey : string) : bool := String.eqb baseKey ".".

Definition hasFolderPattern (baseKey : string) (files : list string) : bool :=
  existsb (λ f, Js.includes f "/" && negb (isMainEntry baseKey)) files.

Definition branchOf (baseKey : string) (files : list string) : Branch :=
  if isMainEntry baseKey then MainEntry
  else if hasFolderPattern baseKey files then FolderPattern
  else SingleFile.

Definition mainFiles (files : list string) : list string :=
  List.filter
    (λ f, String.eqb (removeExtension f) "index" || negb (Js.includes f "/"))
    files.

Definition assign (key : string) (exportConditions : ExportValue)
    (exports : ExportMap) : ExportMap :=
  if hasKeys exportConditions then <[key := exportConditions]> exports
  else exports.

(** One iteration of the emission loop. *)
Definition emitGroup (outDir : string) (exports : ExportMap)
    (group : string * list string) : ExportMap :=
  let '(baseKey, files) := group in
  match branchOf baseKey files with
  | MainEntry =>
      if nonEmpty (mainFiles files) then
        assign "." (generateExportConditions (mainFiles files) outDir "") exports
      else exports
  | FolderPattern =>
      let folderName := Js.sliceFrom 2 baseKey in
      assign (baseKey +:+ "/*")
        (generateFolderPatternExportConditions files outDir folderName) exports
  | SingleFile =>
      assign baseKey (generateExportConditions files outDir "") exports
  end.

(** The [exports] object once both loops have run. *)
Definition assembleExports (buildEntries : list BuildEntry) (outDir : string)
    (exportImport : ExportImport) : ExportMap :=
  fold_left (emitGroup outDir) (groupEntries exportImport buildEntries) ∅.

(** [generatePackageExports(buildEntries, outDir, exportImport = false, pkg?)];
    the body never reads [pkg].  [None] is [undefined]. *)
Definition generatePackageExports (buildEntries : list BuildEntry) (outDir : string)
    (exportImport : ExportImport) : option ExportMap :=
  match exportImport with
  | ModeBool false => None
  | _ =>
      let exports := assembleExports buildEntries outDir exportImport in
      if 0 <? size exports then Some exports else None
  end.

(** A build entry without the optional [chunk] flag. *)
Definition entry (p : string) : BuildEntry := {| path := p; chunk := None |}.

(** ** The other pure utilities of [src/utils.ts] *)

(** [s.startsWith(prefix)]. *)
Definition startsWith (s pre : string) : bool := String.prefix pre s.

(** [s.replace(/c/g, by)] for a one-character pattern: every occurrence of
    [c] is replaced. *)
Fixpoint replaceAll (c : ascii) (by_ : string) (s : string) : string :=
  match s with
  | EmptyString => EmptyString
  | String a s' =>
      if Ascii.eqb a c then by_ +:+ replaceAll c by_ s'
      else String a (replaceAll c by_ s')
  end.

(** [withTrailingSlash(path)]. *)
Definition withTrailingSlash (path : string) : string :=
  if Js.endsWith path "/" then path else path +:+ "/".

(** [getpkg(id = "")].  [s[0]] always exists; [s[0][0] === "@"] tests its
    first code unit; an absent [s[1]] is rendered by the template string
    as "undefined". *)
Definition getpkg (id : string) : string :=
  let s := Js.split "/" id in
  if startsWith (firstPart s) "@"
  then firstPart s +:+ "/" +:+ nth 1 s "undefined"
  else firstPart s.

(** An element of a [(string | RegExp)[]]: a string, or a regular
    expression object given by the pattern it was built from. *)
Inductive External :=
  | ExtString (s : string)
  | ExtRegExp (pattern : string).

(** The backslash, for [String.raw`\.`]. *)
Definition backslash : ascii := ascii_of_nat 92.

(** The pattern text that [pathToRegex] hands to [new RegExp]: dots are
    escaped, then every star becomes [.*], between [^] and [$]. *)
Definition regexSource (path : string) : string :=
  "^" +:+ replaceAll "*" ".*" (replaceAll "." (String backslash ".") path) +:+ "$".

(** [pathToRegex(path)].  [new RegExp] throws a [SyntaxError] on a pattern
    that the engine rejects (only dots and stars were rewritten, so a path
    such as "c++/*" gives one).  Which patterns the engine accepts is the
    parameter [validPattern]; [None] is the thrown error. *)
Definition pathToRegex (validPattern : string → bool) (path : string)
    : option External :=
  if Js.includes path "*" then
    if validPattern (regexSource path) then Some (ExtRegExp (regexSource path))
    else None
  else Some (ExtString path).

(** The fields of a package manifest that [inferPkgExternals] reads.  An
    object is the list of its [Object.entries]; an absent field is [None]. *)
Record PackageJson := {
  pkg_name : option string;
  pkg_dependencies : option (list (string * string));
  pkg_peerDependencies : option (list (string * string));
  pkg_devDependencies : option (list (string * string));
  pkg_optionalDependencies : option (list (string * string));
  pkg_exports : Exports;
  pkg_imports : option (list (string * Exports))
}.

(** [Object.keys(o || {})]. *)
Definition keysOrEmpty {V} (o : option (list (string * V))) : list string :=
  match o with Some entries => entries.*1 | None => [] end.

(** [Object.keys(exports)] for a truthy [exports]: the keys of a mapping,
    the indices of a string. *)
Definition exportsKeys (e : Exports) : list string :=
  match e with
  | ExportsUndefined => []
  | ExportsString s => pretty <$> seq 0 (String.length s)
  | ExportsMapping entries => entries.*1
  end.

(** Truthiness of [pkg.exports]. *)
Definition exportsTruthy (e : Exports) : bool :=
  match e with
  | ExportsUndefined => false
  | ExportsString s => Js.truthy s
  | ExportsMapping _ => true
  end.

(** [set.add(x)] on a [Set] kept in insertion order.  Strings are compared
    by value; every regular expression is a fresh object, equal to none
    that is already there. *)
Definition setAdd (set : list External) (x : External) : list External :=
  match x with
  | ExtString s =>
      if existsb (λ y, match y with ExtString t => String.eqb t s | _ => false end) set
      then set else set ++ [x]
  | ExtRegExp _ => set ++ [x]
  end.

(** [[...new Set(externals)]]. *)
Definition uniqueExternals (externals : list External) : list External :=
  fold_left setAdd externals [].

(** The array [externals] before it goes through the [Set].  A
    [SyntaxError] thrown by [pathToRegex] inside either loop ends the call:
    the result is [None]. *)
Definition collectedExternals (validPattern : string → bool) (pkg : PackageJson)
    : option (list External) :=
  let externals :=
    (ExtString <$> keysOrEmpty (pkg_dependencies pkg))
    ++ (ExtString <$> keysOrEmpty (pkg_peerDependencies pkg))
    ++ (ExtString <$> List.filter (λ dep, startsWith dep "@types/")
                        (keysOrEmpty (pkg_devDependencies pkg)))
    ++ (ExtString <$> keysOrEmpty (pkg_optionalDependencies pkg)) in
  externals ←
    match pkg_name pkg with
    | Some name =>
        if Js.truthy name then
          let externals := externals ++ [ExtString name] in
          if exportsTruthy (pkg_exports pkg) then
            pushed ← mapM (λ subpath, pathToRegex validPattern
                                        (name +:+ "/" +:+ Js.sliceFrom 2 subpath))
                       (List.filter (λ subpath, startsWith subpath "./")
                          (exportsKeys (pkg_exports pkg)));
            Some (externals ++ pushed)
          else Some externals
        else Some externals
    | None => Some externals
    end;
  match pkg_imports pkg with
  | Some imports =>
      pushed ← mapM (pathToRegex validPattern)
                 (List.filter (λ importName, startsWith importName "#") imports.*1);
      Some (externals ++ pushed)
  | None => Some externals
  end.

(** [inferPkgExternals(pkg)]; [None] when it throws. *)
Definition inferPkgExternals (validPattern : string → bool) (pkg : PackageJson)
    : option (list External) :=
  uniqueExternals <$> collectedExternals validPattern pkg.

(** [arrayIncludes(arr, searchElement)].  The regular-expression engine is
    a parameter: [regexTest pattern s] is [new RegExp(pattern).test(s)], a
    function of the pattern and the subject since the expressions built by
    [pathToRegex] carry no flag; it is only asked about patterns that
    [new RegExp] accepted. *)
Definition arrayIncludes (regexTest : string → string → bool)
    (arr : list External) (searchElement : string) : bool :=
  existsb (λ entry, match entry with
                    | ExtRegExp pattern => regexTest pattern searchElement
                    | ExtString s => String.eqb s searchElement
                    end) arr.

(** The part of a [BuildContext] that [warn] touches: the [warnings] set,
    and the messages handed to [consola.debug] so far. *)
Record WarnContext := {
  warnings : gset string;
  debugged : list string
}.

(** [warn(ctx, message)]. *)
Definition warn (ctx : WarnContext) (message : string) : WarnContext :=
  if bool_decide (message ∈ warnings ctx) then ctx
  else {| warnings := {[ message ]} ∪ warnings ctx;
          debugged := debugged ctx ++ [message] |}.

(** ** Vocabulary of the statements *)

(** The five suffixes the builders classify by. *)
Definition classSuffixes : list string := [".mjs"; ".cjs"; ".d.ts"; ".d.mts"; ".d.cts"].

(** The five buckets of a group. *)
Definition buckets (t : FilesByType) : list (list string) :=
  [mjs t; cjs t; dts t; dmts t; dcts t].

(** The value attached to the first non-empty bucket of a priority list. *)
Fixpoint firstPresent (candidates : list (list string * string)) : option string :=
  match candidates with
  | [] => None
  | (bucket, v) :: rest => if nonEmpty bucket then Some v else firstPresent rest
  end.

(** The value is a conditions object whose top-level [types] key is [o]. *)
Definition topTypesIs (v : ExportValue) (o : option string) : Prop :=
  ∃ c, v = ExportConditions c ∧ cond_types c = o.

(** The value has an [import] block whose [types] sub-key is [o]. *)
Definition importTypesIs (v : ExportValue) (o : option string) : Prop :=
  ∃ c b, v = ExportConditions c ∧ cond_import c = Some b ∧ block_types b = o.

(** The value has a [require] block whose [types] sub-key is [o]. *)
Definition requireTypesIs (v : ExportValue) (o : option string) : Prop :=
  ∃ c b, v = ExportConditions c ∧ cond_require c = Some b ∧ block_types b = o.

(** The invariant of the grouping loop: no group is empty, and every member
    of a non-root group contains a slash. *)
Definition wellGrouped (entryGroups : EntryGroups) : Prop :=
  Forall (λ group,
            group.2 ≠ []
            ∧ (group.1 ≠ "." → Forall (λ f, Js.includes f "/" = true) group.2))
    entryGroups.

(** The keys the emission loop may write: "." and wildcard keys. *)
Definition keysOk (exports : ExportMap) : Prop :=
  ∀ key, is_Some (exports !! key) → key = "." ∨ Js.endsWith key "/*" = true.

(** A condition name that [inferExportType] resolves by itself. *)
Definition resolving (condition : string) : bool :=
  String.eqb condition "import" || String.eqb condition "require".

(** A filename that carries one of the three suffixes [inferExportType]
    looks at. *)
Definition typedByName (filename : string) : bool :=
  Js.endsWith filename ".d.ts" || Js.endsWith filename ".mjs"
  || Js.endsWith filename ".cjs".

(** A file that falls in one of the five buckets. *)
Definition classified (f : string) : bool := existsb (Js.endsWith f) classSuffixes.

(** An entry that passes both [continue] tests of the grouping loop. *)
Definition kept (exportImport : ExportImport) (e : BuildEntry) : bool :=
  negb (skippedChunk e)
  && negb (filteredOut exportImport (Js.split "/" (pathWithoutExt (path e)))).

(** The group key computed for a path. *)
Definition keyOfPath (p : string) : string :=
  baseKeyOf (Js.split "/" (pathWithoutExt p)).

(** The export key written for a group key. *)
Definition exportKeyOf (baseKey : string) : string :=
  if isMainEntry baseKey then "." else baseKey +:+ "/*".

(** The strings stored in a block and in an export value. *)
Definition blockLeaves (b : option ConditionBlock) : list string :=
  match b with
  | Some b => option_list (block_types b) ++ option_list (block_default b)
  | None => []
  end.

Definition leaves (v : ExportValue) : list string :=
  match v with
  | ExportPath p => [p]
  | ExportConditions c =>
      option_list (cond_types c) ++ blockLeaves (cond_import c)
      ++ blockLeaves (cond_require c)
  end.

(** Every member of every group is the path of a kept entry of [entries]
    whose group key is the key of the group, and no group is empty. *)
Definition groupsFrom (exportImport : ExportImport) (entries : list BuildEntry)
    (entryGroups : EntryGroups) : Prop :=
  Forall (λ group,
            group.2 ≠ []
            ∧ Forall (λ f, keyOfPath f = group.1
                           ∧ ∃ e, In e entries ∧ kept exportImport e = true
                                  ∧ path e = f) group.2)
    entryGroups.

(** The strings of a list of externals. *)
Definition externalStrings (l : list External) : list string :=
  omap (λ x, match x with ExtString s => Some s | ExtRegExp _ => None end) l.

(** What the emission loop stores for a group that is not a single-file
    one: the literal conditions of the main files, or the wildcard
    conditions of the folder. *)
Definition groupValue (outDir : string) (baseKey : string) (files : list string)
    : ExportValue :=
  if isMainEntry baseKey then generateExportConditions (mainFiles files) outDir ""
  else generateFolderPatternExportConditions files outDir (Js.sliceFrom 2 baseKey).

(** Whether the emission loop stores anything for such a group. *)
Definition emits (outDir : string) (baseKey : string) (files : list string) : bool :=
  (if isMainEntry baseKey then nonEmpty (mainFiles files) else true)
  && hasKeys (groupValue outDir baseKey files).

(** The names [inferPkgExternals] pushes as they are: the dependency keys
    and the package's own name. *)
Definition literalExternals (pkg : PackageJson) : list External :=
  (ExtString <$> keysOrEmpty (pkg_dependencies pkg))
  ++ (ExtString <$> keysOrEmpty (pkg_peerDependencies pkg))
  ++ (ExtString <$> List.filter (λ dep, startsWith dep "@types/")
                      (keysOrEmpty (pkg_devDependencies pkg)))
  ++ (ExtString <$> keysOrEmpty (pkg_optionalDependencies pkg))
  ++ match pkg_name pkg with
     | Some name => if Js.truthy name then [ExtString name] else []
     | None => []
     end.

(** The paths [inferPkgExternals] hands to [pathToRegex]: first those made
    from the exports subpaths, then the imports keys. *)
Definition exportPaths (pkg : PackageJson) : list string :=
  match pkg_name pkg with
  | Some name =>
      if Js.truthy name && exportsTruthy (pkg_exports pkg) then
        (λ subpath, name +:+ "/" +:+ Js.sliceFrom 2 subpath)
          <$> List.filter (λ subpath, startsWith subpath "./")
                (exportsKeys (pkg_exports pkg))
      else []
  | None => []
  end.

Definition importPaths (pkg : PackageJson) : list string :=
  match pkg_imports pkg with
  | Some imports => List.filter (λ importName, startsWith importName "#") imports.*1
  | None => []
  end.

Definition regexPaths (pkg : PackageJson) : list string :=
  exportPaths pkg ++ importPaths pkg.

(** [pathToRegex] does not throw on the path: it has no star, or the
    engine accepts its pattern. *)
Definition compiles (validPattern : string → bool) (path : string) : bool :=
  negb (Js.includes path "*") || validPattern (regexSource path).

(** The patterns of the regular expressions of a list of externals. *)
Definition externalPatterns (l : list External) : list string :=
  omap (λ x, match x with ExtRegExp r => Some r | ExtString _ => None end) l.

(** A context in which nothing was warned about yet. *)
Definition freshContext : WarnContext := {| warnings := ∅; debugged := [] |}.

(** ** Facts about the string primitives *)

Section JsStringFacts.

Lemma endsWith_empty_l (suffix : string) :
  Js.endsWith "" suffix = String.eqb "" suffix.
Proof. simpl. apply orb_false_r. Qed.

Lemma endsWith_refl (s : string) : Js.endsWith s s = true.
Proof. destruct s; simpl; rewrite ?Ascii.eqb_refl, ?String.eqb_refl; done. Qed.

Lemma endsWith_cons (a : ascii) (s suffix : string) :
  Js.endsWith (String a s) suffix =
  String.eqb (String a s) suffix || Js.endsWith s suffix.
Proof. reflexivity. Qed.

Lemma endsWith_length (s suffix : string) :
  Js.endsWith s suffix = true → String.length suffix ≤ String.length s.
Proof.
  induction s as [|a s IH].
  - rewrite endsWith_empty_l. intros ->%String.eqb_eq. done.
  - rewrite endsWith_cons. intros [->%String.eqb_eq | H]%orb_true_iff.
    + done.
    + specialize (IH H). simpl. lia.
Qed.

(** Two suffixes of one string are comparable: the shorter one is a
    suffix of the longer one. *)
Lemma endsWith_comparable (s a b : string) :
  Js.endsWith s a = true → Js.endsWith s b = true →
  String.length a ≤ String.length b → Js.endsWith b a = true.
Proof.
  induction s as [|c s IH]; intros Ha Hb Hlen.
  - rewrite endsWith_empty_l in Ha, Hb.
    apply String.eqb_eq in Ha, Hb. subst. done.
  - rewrite endsWith_cons in Ha, Hb.
    apply orb_true_iff in Ha, Hb.
    destruct Hb as [<-%String.eqb_eq | Hb].
    + rewrite endsWith_cons. apply orb_true_iff. destruct Ha; auto.
    + destruct Ha as [<-%String.eqb_eq | Ha]; [|by apply IH].
      apply endsWith_length in Hb. simpl in Hlen. lia.
Qed.

Lemma endsWith_app (p suffix : string) : Js.endsWith (p +:+ suffix) suffix = true.
Proof.
  induction p as [|a p IH]; simpl.
  - apply endsWith_refl.
  - rewrite IH. apply orb_true_r.
Qed.

End JsStringFacts.

(** ** Export-type inference agrees with its decision list *)

(** C2: for every condition, chain and filename, [inferExportType] equals
    the five-step first-match-wins reference definition: a non-empty
    filename ending in ".d.ts" gives esm, one ending in ".mjs" gives esm,
    one ending in ".cjs" gives cjs, the condition "import" gives esm,
    "require" gives cjs, and otherwise the chain is walked from its head,
    an exhausted chain giving esm. *)
Theorem inferExportType_matches_reference (c : string) (p : list string) (f : string) :
  inferExportType c p f = inferExportType_ref c p f.
Proof.
  revert c. induction p as [|c' p IH]; intros c; simpl.
  - unfold Js.truthy. destruct (String.eqb f "") eqn:Hf; simpl.
    + apply String.eqb_eq in Hf. subst f. reflexivity.
    + reflexivity.
  - rewrite IH. unfold Js.truthy. destruct (String.eqb f "") eqn:Hf; simpl.
    + apply String.eqb_eq in Hf. subst f. reflexivity.
    + reflexivity.
Qed.

(** The documented values of [inferExportType]. *)
Example inferExportType_by_condition :
  inferExportType "import" [] "" = ESM ∧ inferExportType "require" [] "" = CJS
  ∧ inferExportType "node" [] "" = ESM
  ∧ inferExportType "some_unknown_condition" [] "" = ESM.
Proof. repeat split. Qed.

Example inferExportType_by_chain :
  inferExportType "import" ["require"] "" = ESM
  ∧ inferExportType "require" ["import"] "" = CJS
  ∧ inferExportType "node" ["require"] "" = CJS
  ∧ inferExportType "node" ["import"] "" = ESM
  ∧ inferExportType "node" ["unknown"; "require"] "" = CJS.
Proof. repeat split. Qed.

Example inferExportType_by_filename :
  inferExportType "require" [] "x.mjs" = ESM
  ∧ inferExportType "import" [] "x.cjs" = CJS
  ∧ inferExportType "require" [] "x.d.ts" = ESM.
Proof. repeat split. Qed.

(** The chain of array methods in [extractExportFilenames]: the entries
    whose key does not end in ".json", flat-mapped. *)
Lemma extractExportFilenames_mapping (entries : list (string * Exports))
    (conditions : list string) :
  extractExportFilenames (ExportsMapping entries) conditions =
  flat_map
    (λ kv, match kv.2 with
           | ExportsString s =>
               [{| file := s; type := Some (inferExportType kv.1 conditions s) |}]
           | _ => extractExportFilenames kv.2 (conditions ++ [kv.1])
           end)
    (List.filter (λ kv, negb (Js.endsWith kv.1 ".json")) entries).
Proof.
  simpl. induction entries as [|[condition exports'] l IH]; simpl; [done|].
  destruct (Js.endsWith condition ".json"); simpl; by rewrite IH.
Qed.

(** ** Suffix classification *)

Lemma endsWith_exclusive (a b f : string) :
  Js.endsWith a b = false → Js.endsWith b a = false →
  Js.endsWith f a = true → Js.endsWith f b = true → False.
Proof.
  intros Hab Hba Ha Hb.
  destruct (le_ge_dec (String.length a) (String.length b)) as [Hle|Hge].
  - rewrite (endsWith_comparable f a b Ha Hb Hle) in Hba. discriminate.
  - rewrite (endsWith_comparable f b a Hb Ha Hge) in Hab. discriminate.
Qed.

Ltac clash :=
  match goal with
  | Ha : Js.endsWith ?f ?a = true, Hb : Js.endsWith ?f ?b = true |- _ =>
      exact (endsWith_exclusive a b f eq_refl eq_refl Ha Hb)
  end.

Lemma classSuffixes_at_most_one (f : string) :
  length (List.filter (Js.endsWith f) classSuffixes) ≤ 1.
Proof.
  unfold classSuffixes. simpl.
  destruct (Js.endsWith f ".mjs") eqn:H1, (Js.endsWith f ".cjs") eqn:H2,
    (Js.endsWith f ".d.ts") eqn:H3, (Js.endsWith f ".d.mts") eqn:H4,
    (Js.endsWith f ".d.cts") eqn:H5; simpl; try lia; exfalso; clash.
Qed.

Lemma bucket_member (t : FilesByType) (files : list string) (i : nat)
    (b : list string) (suffix f : string) :
  t = filesByType files → buckets t !! i = Some b → classSuffixes !! i = Some suffix →
  f ∈ b → Js.endsWith f suffix = true.
Proof.
  intros -> Hb Hs Hf. apply list_elem_of_In in Hf.
  do 5 (destruct i as [|i]; simpl in Hb, Hs;
        [ injection Hb as <-; injection Hs as <-;
          by apply filter_In in Hf as [_ Hf] | ]).
  discriminate.
Qed.

(** C10: suffix classification is exclusive.  At most one of the five
    predicates ends-with ".mjs", ".cjs", ".d.ts", ".d.mts", ".d.cts" holds
    of a filename, so the five buckets of a group are pairwise disjoint; a
    ".d.mts" file is neither an ".mjs" nor a ".d.ts" file. *)
Theorem suffix_classification_exclusive (f : string) (files : list string) :
  length (List.filter (Js.endsWith f) classSuffixes) ≤ 1
  ∧ (∀ (i j : nat) (b1 b2 : list string),
       i ≠ j → buckets (filesByType files) !! i = Some b1 →
       buckets (filesByType files) !! j = Some b2 → b1 ## b2)
  ∧ (Js.endsWith f ".d.mts" = true →
       Js.endsWith f ".mjs" = false ∧ Js.endsWith f ".d.ts" = false).
Proof.
  split; [apply classSuffixes_at_most_one|]. split.
  - intros i j b1 b2 Hij H1 H2 x Hx1 Hx2.
    destruct (classSuffixes !! i) as [s1|] eqn:Hs1; cycle 1.
    { apply lookup_ge_None in Hs1. apply lookup_lt_Some in H1.
      simpl in Hs1, H1. lia. }
    destruct (classSuffixes !! j) as [s2|] eqn:Hs2; cycle 1.
    { apply lookup_ge_None in Hs2. apply lookup_lt_Some in H2.
      simpl in Hs2, H2. lia. }
    pose proof (bucket_member _ files i b1 s1 x eq_refl H1 Hs1 Hx1) as E1.
    pose proof (bucket_member _ files j b2 s2 x eq_refl H2 Hs2 Hx2) as E2.
    clear H1 H2 Hx1 Hx2.
    destruct i as [|[|[|[|[|i]]]]], j as [|[|[|[|[|j]]]]];
      simplify_eq/=; clash.
  - intros H. split.
    + destruct (Js.endsWith f ".mjs") eqn:E; [exfalso; clash|done].
    + destruct (Js.endsWith f ".d.ts") eqn:E; [exfalso; clash|done].
Qed.

Lemma suffix_classification_exclusive_witness :
  Js.endsWith "index.d.mts" ".d.mts" = true
  ∧ Js.endsWith "index.d.mts" ".mjs" = false
  ∧ Js.endsWith "index.d.mts" ".d.ts" = false.
Proof.
  split; [reflexivity|].
  apply (suffix_classification_exclusive "index.d.mts" []). reflexivity.
Defined.

(** ** Declaration priority *)

Ltac split_buckets t :=
  unfold hasDeclarationFiles in *; simpl in *;
  destruct (nonEmpty (mjs t)) eqn:?, (nonEmpty (cjs t)) eqn:?,
    (nonEmpty (dts t)) eqn:?, (nonEmpty (dmts t)) eqn:?,
    (nonEmpty (dcts t)) eqn:?; simpl in *; try discriminate.

(** What [buildConditions] stores, key by key. *)
Lemma buildConditions_types (t : FilesByType) (pmjs pcjs pdts pdmts pdcts : string) :
  cond_types (buildConditions t pmjs pcjs pdts pdmts pdcts) =
  firstPresent [(dts t, pdts); (dmts t, pdmts); (dcts t, pdcts)].
Proof. unfold buildConditions. split_buckets t; reflexivity. Qed.

Lemma buildConditions_import (t : FilesByType) (pmjs pcjs pdts pdmts pdcts : string) :
  nonEmpty (mjs t) = true →
  cond_import (buildConditions t pmjs pcjs pdts pdmts pdcts) =
  Some {| block_default := Some pmjs;
          block_types := firstPresent [(dmts t, pdmts); (dts t, pdts)] |}.
Proof. intros H. unfold buildConditions. split_buckets t; reflexivity. Qed.

Lemma buildConditions_require (t : FilesByType) (pmjs pcjs pdts pdmts pdcts : string) :
  nonEmpty (cjs t) = true →
  cond_require (buildConditions t pmjs pcjs pdts pdmts pdcts) =
  Some {| block_default := Some pcjs;
          block_types := firstPresent [(dcts t, pdcts); (dts t, pdts)] |}.
Proof. intros H. unfold buildConditions. split_buckets t; reflexivity. Qed.

(** The literal builder returns a bare path only for a single file in a
    group without declaration files. *)
Lemma generateExportConditions_cases (files : list string) (outDir pre : string) :
  let t := filesByType files in
  (generateExportConditions files outDir pre
     = ExportPath (literalPath outDir pre (first files))
   ∧ length files = 1 ∧ hasDeclarationFiles t = false)
  ∨ generateExportConditions files outDir pre
      = ExportConditions
          (buildConditions t
             (literalPath outDir pre (first (mjs t)))
             (literalPath outDir pre (first (cjs t)))
             (literalPath outDir pre (first (dts t)))
             (literalPath outDir pre (first (dmts t)))
             (literalPath outDir pre (first (dcts t)))).
Proof.
  intros t. unfold generateExportConditions. fold t.
  destruct (length files =? 1) eqn:Hlen; simpl; [|by right].
  destruct (hasDeclarationFiles t) eqn:Hd; simpl; [by right|].
  destruct (Js.includes (first files) ".d."); simpl; [by right|].
  left. apply Nat.eqb_eq in Hlen. done.
Qed.

(** C3: declaration priority in both builders.  When a declaration file is
    present, the top-level [types] key is the first present of .d.ts,
    .d.mts, .d.cts.  When an .mjs file is present, the [types] sub-key of
    the [import] block is the first present of .d.mts then .d.ts, and is
    omitted when neither exists; likewise .d.cts then .d.ts for [require]
    when a .cjs file is present.  The literal builder writes the path of
    the first file of the chosen bucket, the wildcard builder the pattern
    of its suffix; a single file without declarations collapses to a bare
    path, which has no block at all. *)
Theorem declaration_priority (files : list string) (outDir pre folderName : string) :
  let t := filesByType files in
  let lit bucket := literalPath outDir pre (first bucket) in
  let pat := wildcardPath outDir folderName in
  let literal := generateExportConditions files outDir pre in
  let wildcard := generateFolderPatternExportConditions files outDir folderName in
  (hasDeclarationFiles t = true →
     topTypesIs literal
       (firstPresent [(dts t, lit (dts t)); (dmts t, lit (dmts t)); (dcts t, lit (dcts t))])
     ∧ topTypesIs wildcard
       (firstPresent [(dts t, pat ".d.ts"); (dmts t, pat ".d.mts"); (dcts t, pat ".d.cts")]))
  ∧ (nonEmpty (mjs t) = true →
     (importTypesIs literal (firstPresent [(dmts t, lit (dmts t)); (dts t, lit (dts t))])
      ∨ (literal = ExportPath (lit files) ∧ hasDeclarationFiles t = false))
     ∧ importTypesIs wildcard
         (firstPresent [(dmts t, pat ".d.mts"); (dts t, pat ".d.ts")]))
  ∧ (nonEmpty (cjs t) = true →
     (requireTypesIs literal (firstPresent [(dcts t, lit (dcts t)); (dts t, lit (dts t))])
      ∨ (literal = ExportPath (lit files) ∧ hasDeclarationFiles t = false))
     ∧ requireTypesIs wildcard
         (firstPresent [(dcts t, pat ".d.cts"); (dts t, pat ".d.ts")])).
Proof.
  intros t lit pat literal wildcard.
  pose proof (generateExportConditions_cases files outDir pre) as Hlit.
  fold t literal in Hlit.
  split; [|split].
  - intros Hd. split.
    + destruct Hlit as [(_ & _ & Hno)|Hlit]; [congruence|].
      eexists. split; [exact Hlit|]. apply buildConditions_types.
    + eexists. split; [reflexivity|]. apply buildConditions_types.
  - intros Hm. split.
    + destruct Hlit as [(Hp & _ & Hno)|Hlit]; [by right|left].
      do 2 eexists. split; [exact Hlit|].
      split; [by apply buildConditions_import|reflexivity].
    + do 2 eexists. split; [reflexivity|].
      split; [by apply buildConditions_import|reflexivity].
  - intros Hc. split.
    + destruct Hlit as [(Hp & _ & Hno)|Hlit]; [by right|left].
      do 2 eexists. split; [exact Hlit|].
      split; [by apply buildConditions_require|reflexivity].
    + do 2 eexists. split; [reflexivity|].
      split; [by apply buildConditions_require|reflexivity].
Qed.

Lemma declaration_priority_witness :
  topTypesIs (generateExportConditions ["a.d.cts"; "a.d.mts"; "a.mjs"] "dist" "")
    (Some "./dist/a.d.mts")
  ∧ importTypesIs
      (generateFolderPatternExportConditions ["p/a.mjs"; "p/a.d.ts"] "dist" "p")
      (Some "./dist/p/*.d.ts")
  ∧ requireTypesIs (generateExportConditions ["a.cjs"; "b.cjs"] "dist" "") None.
Proof.
  split; [|split].
  - apply (declaration_priority ["a.d.cts"; "a.d.mts"; "a.mjs"] "dist" "" "").
    reflexivity.
  - apply (declaration_priority ["p/a.mjs"; "p/a.d.ts"] "dist" "" "p").
    reflexivity.
  - destruct (declaration_priority ["a.cjs"; "b.cjs"] "dist" "" "")
      as (_ & _ & H).
    destruct (H eq_refl) as [[H1|[H1 _]] _]; [exact H1|discriminate H1].
Defined.

(** ** The generator on the documented inputs *)

(** C1: for the entries index.mjs, index.cjs, index.d.mts, index.d.cts,
    outDir "dist" and mode [true], the generator returns exactly the map
    with the single key "." holding types "./dist/index.d.mts", an import
    block with types "./dist/index.d.mts" and default "./dist/index.mjs",
    and a require block with types "./dist/index.d.cts" and default
    "./dist/index.cjs". *)
Theorem main_entry_exports :
  generatePackageExports
    [entry "index.mjs"; entry "index.cjs"; entry "index.d.mts"; entry "index.d.cts"]
    "dist" (ModeBool true)
  = Some {[ "." := ExportConditions
      {| cond_types := Some "./dist/index.d.mts";
         cond_import := Some {| block_default := Some "./dist/index.mjs";
                                block_types := Some "./dist/index.d.mts" |};
         cond_require := Some {| block_default := Some "./dist/index.cjs";
                                 block_types := Some "./dist/index.d.cts" |} |} ]}.
Proof. vm_compute. reflexivity. Qed.

(** C7: for the entries types/index.d.ts, types/utils.d.mts and
    types/helpers.d.cts under mode [true] and any outDir [d], the result
    has the single key "./types/*" holding types "./<d>/types/*.d.ts", an
    import block with only types "./<d>/types/*.d.mts" and a require block
    with only types "./<d>/types/*.d.cts": neither block has a default. *)
Theorem types_only_folder (d : string) :
  generatePackageExports
    [entry "types/index.d.ts"; entry "types/utils.d.mts"; entry "types/helpers.d.cts"]
    d (ModeBool true)
  = Some {[ "./types/*" := ExportConditions
      {| cond_types := Some ("./" +:+ d +:+ "/types/*.d.ts");
         cond_import := Some {| block_default := None;
                                block_types := Some ("./" +:+ d +:+ "/types/*.d.mts") |};
         cond_require := Some {| block_default := None;
                                 block_types := Some ("./" +:+ d +:+ "/types/*.d.cts") |} |} ]}.
Proof.
  unfold generatePackageExports, assembleExports.
  replace (groupEntries (ModeBool true)
             [entry "types/index.d.ts"; entry "types/utils.d.mts";
              entry "types/helpers.d.cts"])
    with [("./types", ["types/index.d.ts"; "types/utils.d.mts"; "types/helpers.d.cts"])]
    by (vm_compute; reflexivity).
  reflexivity.
Qed.

(** ** The escape value *)

Lemma generatePackageExports_enabled (buildEntries : list BuildEntry)
    (outDir : string) (exportImport : ExportImport) :
  exportImport ≠ ModeBool false →
  generatePackageExports buildEntries outDir exportImport =
  let exports := assembleExports buildEntries outDir exportImport in
  if 0 <? size exports then Some exports else None.
Proof. destruct exportImport as [[|]|l]; done. Qed.

(** C4: the generator returns [undefined] exactly when the mode is [false]
    or the assembled mapping has no key; so it does for every empty entry
    list, and for mode [false] whatever the entries.  Otherwise it returns
    the assembled mapping, which has at least one key. *)
Theorem undefined_iff_disabled_or_empty (buildEntries : list BuildEntry)
    (outDir : string) (exportImport : ExportImport) :
  (generatePackageExports buildEntries outDir exportImport = None
     ↔ exportImport = ModeBool false
       ∨ assembleExports buildEntries outDir exportImport = ∅)
  ∧ generatePackageExports [] outDir exportImport = None
  ∧ generatePackageExports buildEntries outDir (ModeBool false) = None
  ∧ (∀ exports, generatePackageExports buildEntries outDir exportImport = Some exports →
       exports = assembleExports buildEntries outDir exportImport
       ∧ ∃ key value, exports !! key = Some value).
Proof.
  assert (exportImport = ModeBool false ∨ exportImport ≠ ModeBool false)
    as [->|Hmode] by (destruct exportImport as [[|]|l]; [right|left|right]; done).
  { repeat split; try done; auto. }
  split; [split|split; [|split]].
  - rewrite generatePackageExports_enabled by done. cbv zeta.
    destruct (0 <? size _) eqn:Hsize; [done|].
    intros _. right. apply map_size_empty_iff.
    apply Nat.ltb_ge in Hsize. lia.
  - intros [?| Hempty]; [done|].
    rewrite generatePackageExports_enabled by done. cbv zeta.
    by rewrite Hempty.
  - by destruct exportImport as [[|]|l].
  - done.
  - intros exports. rewrite generatePackageExports_enabled by done. cbv zeta.
    destruct (0 <? size _) eqn:Hsize; [|done].
    intros [= <-]. split; [done|]. apply Nat.ltb_lt in Hsize.
    destruct (map_choose (assembleExports buildEntries outDir exportImport))
      as (key & value & Hkv); [|eauto].
    intros Hempty. rewrite Hempty, map_size_empty in Hsize. lia.
Qed.

Lemma undefined_iff_disabled_or_empty_witness :
  ∃ key value,
    assembleExports [entry "index.mjs"] "dist" (ModeFolders []) !! key = Some value.
Proof.
  destruct (undefined_iff_disabled_or_empty [entry "index.mjs"] "dist" (ModeFolders []))
    as (_ & _ & _ & H).
  destruct (H _ eq_refl) as [_ Hkey]. exact Hkey.
Defined.

(** ** Chunks *)

Lemma groupEntry_skipped (exportImport : ExportImport) (entryGroups : EntryGroups)
    (e : BuildEntry) :
  skippedChunk e = true → groupEntry exportImport entryGroups e = entryGroups.
Proof. unfold groupEntry. by intros ->. Qed.

Lemma groupEntry_kept (exportImport : ExportImport) (entryGroups : EntryGroups)
    (e : BuildEntry) :
  skippedChunk e = false →
  groupEntry exportImport entryGroups e =
  groupEntry exportImport entryGroups (entry (path e)).
Proof. unfold groupEntry. by intros ->. Qed.

Lemma generatePackageExports_groups (l l' : list BuildEntry) (outDir : string)
    (exportImport : ExportImport) :
  groupEntries exportImport l = groupEntries exportImport l' →
  generatePackageExports l outDir exportImport =
  generatePackageExports l' outDir exportImport.
Proof.
  intros H. unfold generatePackageExports, assembleExports. by rewrite H.
Qed.

(** A declaration chunk shows up in the output. *)
Example declaration_chunk_exported :
  generatePackageExports
    [entry "index.mjs"; {| path := "index.d.mts"; chunk := Some true |}]
    "dist" (ModeBool true)
  = Some {[ "." := ExportConditions
      {| cond_types := Some "./dist/index.d.mts";
         cond_import := Some {| block_default := Some "./dist/index.mjs";
                                block_types := Some "./dist/index.d.mts" |};
         cond_require := None |} ]}.
Proof. vm_compute. reflexivity. Qed.

(** ** Flattening a manifest's exports *)

(** C8, as stated, fails on the empty string: the guard [!exports] sends it
    to the empty list, where the reference definition gives one entry. *)
Lemma extractExportFilenames_empty_string :
  extractExportFilenames (ExportsString "") [] = []
  ∧ extractExportFilenames (ExportsString "") []
    ≠ extractExportFilenames_ref (ExportsString "") [].
Proof. split; [reflexivity|discriminate]. Qed.

(** Induction on a declaration, with the hypothesis for every value of a
    mapping. *)
Lemma Exports_nested_ind (P : Exports → Prop) :
  P ExportsUndefined →
  (∀ s, P (ExportsString s)) →
  (∀ entries, Forall (λ kv, P kv.2) entries → P (ExportsMapping entries)) →
  ∀ e, P e.
Proof.
  intros Hundefined Hstring Hmapping. fix IH 1.
  intros [|s|entries]; [done..|].
  apply Hmapping. induction entries as [|[key v] l IHl]; constructor.
  - apply IH.
  - apply IHl.
Qed.

(** C8, amended: [extractExportFilenames] returns the empty list on
    [undefined] and on the empty string, the single ESM entry on a
    non-empty plain string, and on a mapping, for each pair in iteration
    order, skips a key ending in ".json", emits the file with the type
    inferred from the key, the accumulated chain and the file for a string
    value, and recurses with the chain extended by the key for a mapping
    value, concatenating the results in order. *)
Theorem extractExportFilenames_matches_reference (exports : Exports)
    (conditions : list string) :
  extractExportFilenames exports conditions =
  extractExportFilenames_nonempty_ref exports conditions.
Proof.
  revert conditions.
  induction exports as [|s|entries IH] using Exports_nested_ind; intros conditions.
  - reflexivity.
  - simpl. unfold Js.truthy. by destruct (String.eqb s "").
  - simpl. induction IH as [|[key v] l Hv _ IHl]; simpl; [reflexivity|].
    rewrite IHl. destruct (Js.endsWith key ".json"); simpl; [reflexivity|].
    f_equal. destruct v as [|f|inner]; [reflexivity..|].
    apply Hv.
Qed.

(** The documented values. *)
Example extractExportFilenames_undefined :
  extractExportFilenames ExportsUndefined [] = [].
Proof. reflexivity. Qed.

Example extractExportFilenames_test :
  extractExportFilenames (ExportsString "test") []
  = [{| file := "test"; type := Some ESM |}].
Proof. reflexivity. Qed.

Example extractExportFilenames_nested :
  extractExportFilenames
    (ExportsMapping
       [("require",
         ExportsMapping
           [("node", ExportsString "test");
            ("other", ExportsMapping [("import", ExportsString "this");
                                      ("require", ExportsString "that")])])]) []
  = [{| file := "test"; type := Some CJS |};
     {| file := "this"; type := Some ESM |};
     {| file := "that"; type := Some CJS |}].
Proof. reflexivity. Qed.

(** Away from the empty string the unrestricted reference definition
    already agrees with the code. *)
Lemma extractExportFilenames_ref_agrees (exports : Exports) (conditions : list string) :
  exports ≠ ExportsString "" →
  extractExportFilenames exports conditions =
  extractExportFilenames_ref exports conditions.
Proof.
  revert conditions.
  induction exports as [|s|entries IH] using Exports_nested_ind;
    intros conditions Hne.
  - reflexivity.
  - simpl. unfold Js.truthy. destruct (String.eqb s "") eqn:Hs; [|reflexivity].
    apply String.eqb_eq in Hs. congruence.
  - simpl. clear Hne. induction IH as [|[key v] l Hv _ IHl]; simpl; [reflexivity|].
    rewrite IHl. destruct (Js.endsWith key ".json"); simpl; [reflexivity|].
    f_equal. destruct v as [|f|inner]; [reflexivity..|]. by apply Hv.
Qed.

(** ** Slashes, groups and export keys *)

Lemma includes_slash_cons (c : ascii) (s : string) :
  Js.includes (String c s) "/" = Ascii.eqb c "/" || Js.includes s "/".
Proof.
  change (Js.includes (String c s) "/")
    with (String.prefix "/" (String c s) || Js.includes s "/").
  f_equal. cbn [String.prefix].
  destruct (ascii_dec "/" c) as [<-|Hne].
  - by destruct s.
  - destruct (Ascii.eqb c "/") eqn:Hc; [|done].
    apply Ascii.eqb_eq in Hc. congruence.
Qed.

Lemma split_nonempty (sep : ascii) (s : string) : Js.split sep s ≠ [].
Proof.
  destruct s as [|c s]; simpl; [done|].
  destruct (Ascii.eqb c sep); [done|]. by destruct (Js.split sep s).
Qed.

Lemma split_several_includes (s : string) :
  1 < length (Js.split "/" s) → Js.includes s "/" = true.
Proof.
  induction s as [|c s IH]; [simpl; lia|].
  rewrite includes_slash_cons. simpl.
  destruct (Ascii.eqb c "/"); [done|]. simpl.
  destruct (Js.split "/" s) as [|h t]; [simpl; lia|].
  intros Hlen. apply IH. exact Hlen.
Qed.

Lemma includes_slash_prefix (n : nat) (s : string) :
  Js.includes (String.substring 0 n s) "/" = true → Js.includes s "/" = true.
Proof.
  revert n. induction s as [|c s IH]; intros [|n]; simpl String.substring;
    try discriminate.
  rewrite !includes_slash_cons. intros [Hc|Hs]%orb_true_iff.
  - by rewrite Hc.
  - rewrite (IH n Hs). apply orb_true_r.
Qed.

Lemma removeExtension_slash (f : string) :
  Js.includes (removeExtension f) "/" = true → Js.includes f "/" = true.
Proof.
  unfold removeExtension. destruct (List.find _ _); [|done].
  apply includes_slash_prefix.
Qed.

Lemma pathWithoutExt_slash (p : string) :
  Js.includes (pathWithoutExt p) "/" = true → Js.includes p "/" = true.
Proof.
  unfold pathWithoutExt. destruct (Js.endsWith _ _).
  - intros H%includes_slash_prefix. by apply removeExtension_slash.
  - apply removeExtension_slash.
Qed.

(** A non-root key is only computed for a path with a slash. *)
Lemma baseKeyOf_non_root (p : string) :
  baseKeyOf (Js.split "/" (pathWithoutExt p)) ≠ "." → Js.includes p "/" = true.
Proof.
  unfold baseKeyOf. destruct (1 <? _) eqn:Hlen; [|done].
  intros _. apply pathWithoutExt_slash, split_several_includes.
  by apply Nat.ltb_lt.
Qed.

Lemma baseKeyOf_shape (parts : list string) :
  baseKeyOf parts = "." ∨ ∃ name, baseKeyOf parts = "./" +:+ name.
Proof. unfold baseKeyOf. destruct (1 <? _); eauto. Qed.

Lemma groupPush_wellGrouped (baseKey p : string) (entryGroups : EntryGroups) :
  (baseKey ≠ "." → Js.includes p "/" = true) →
  wellGrouped entryGroups → wellGrouped (groupPush baseKey p entryGroups).
Proof.
  intros Hp. unfold wellGrouped.
  induction 1 as [|[k files] rest [Hne Hslash] Hrest IH]; simpl.
  - constructor; [|constructor]. simpl. split; [done|].
    intros Hroot. constructor; [auto|constructor].
  - destruct (String.eqb k baseKey) eqn:Hk.
    + apply String.eqb_eq in Hk. subst k.
      constructor; [|exact Hrest]. simpl in *. split; [by destruct files|].
      intros Hroot. apply Forall_app. split; [auto|].
      constructor; [auto|constructor].
    + constructor; [done|exact IH].
Qed.

Lemma groupEntry_wellGrouped (exportImport : ExportImport)
    (entryGroups : EntryGroups) (e : BuildEntry) :
  wellGrouped entryGroups → wellGrouped (groupEntry exportImport entryGroups e).
Proof.
  intros H. unfold groupEntry.
  destruct (skippedChunk e); [done|]. cbv zeta.
  destruct (filteredOut _ _); [done|].
  apply groupPush_wellGrouped; [|done]. apply baseKeyOf_non_root.
Qed.

Lemma groupEntries_wellGrouped (exportImport : ExportImport)
    (buildEntries : list BuildEntry) :
  wellGrouped (groupEntries exportImport buildEntries).
Proof.
  unfold groupEntries.
  assert (wellGrouped []) as Hnil by constructor.
  revert Hnil. generalize (@nil (string * list string)).
  induction buildEntries as [|e l IH]; intros g Hg; simpl; [done|].
  apply IH. by apply groupEntry_wellGrouped.
Qed.

Lemma wellGrouped_hasFolderPattern (baseKey : string) (files : list string) :
  baseKey ≠ "." → files ≠ [] → Forall (λ f, Js.includes f "/" = true) files →
  hasFolderPattern baseKey files = true.
Proof.
  intros Hroot Hne Hall. unfold hasFolderPattern, isMainEntry.
  destruct files as [|f files]; [done|]. simpl.
  apply Forall_cons in Hall as [-> _].
  destruct (String.eqb baseKey ".") eqn:Hk; [|done].
  by apply String.eqb_eq in Hk.
Qed.

Lemma wellGrouped_branch (baseKey : string) (files : list string) :
  files ≠ [] → (baseKey ≠ "." → Forall (λ f, Js.includes f "/" = true) files) →
  branchOf baseKey files = (if isMainEntry baseKey then MainEntry else FolderPattern).
Proof.
  intros Hne Hall. unfold branchOf.
  destruct (isMainEntry baseKey) eqn:Hmain; [done|].
  rewrite wellGrouped_hasFolderPattern; [done| |done|]; [|apply Hall];
    intros ->; discriminate.
Qed.

Lemma assign_keysOk (key : string) (v : ExportValue) (exports : ExportMap) :
  key = "." ∨ Js.endsWith key "/*" = true →
  keysOk exports → keysOk (assign key v exports).
Proof.
  intros Hkey Hok. unfold assign. destruct (hasKeys v); [|done].
  intros k [x Hk]. apply lookup_insert_Some in Hk as [[<- _]|[_ Hk]]; [done|].
  apply Hok. eauto.
Qed.

Lemma emitGroup_keysOk (outDir : string) (exports : ExportMap)
    (group : string * list string) :
  group.2 ≠ [] →
  (group.1 ≠ "." → Forall (λ f, Js.includes f "/" = true) group.2) →
  keysOk exports → keysOk (emitGroup outDir exports group).
Proof.
  destruct group as [baseKey files]. simpl. intros Hne Hall Hok.
  rewrite (wellGrouped_branch baseKey files Hne Hall).
  destruct (isMainEntry baseKey).
  - destruct (nonEmpty _); [|done]. apply assign_keysOk; auto.
  - apply assign_keysOk; [|done]. right. apply endsWith_app.
Qed.

Lemma emitGroups_keysOk (outDir : string) (entryGroups : EntryGroups)
    (exports : ExportMap) :
  wellGrouped entryGroups → keysOk exports →
  keysOk (fold_left (emitGroup outDir) entryGroups exports).
Proof.
  intros Hg. revert exports.
  induction Hg as [|group rest [Hne Hall] _ IH]; intros exports Hok; simpl; [done|].
  apply IH. by apply emitGroup_keysOk.
Qed.

(** C9: every member path of a non-root group contains a slash, so the
    [hasFolderPattern] check holds for every non-root group (none is
    empty); the single-file arm of the emission loop is therefore never
    taken, and every key of the returned map other than "." ends in "/*". *)
Theorem non_root_groups_are_folder_patterns (buildEntries : list BuildEntry)
    (outDir : string) (exportImport : ExportImport) :
  (∀ baseKey files,
     (baseKey, files) ∈ groupEntries exportImport buildEntries →
     files ≠ []
     ∧ branchOf baseKey files ≠ SingleFile
     ∧ (baseKey ≠ "." →
          (∀ f, f ∈ files → Js.includes f "/" = true)
          ∧ hasFolderPattern baseKey files = true
          ∧ branchOf baseKey files = FolderPattern))
  ∧ (∀ exports key,
       generatePackageExports buildEntries outDir exportImport = Some exports →
       is_Some (exports !! key) → key ≠ "." → Js.endsWith key "/*" = true).
Proof.
  pose proof (groupEntries_wellGrouped exportImport buildEntries) as Hg.
  split.
  - intros baseKey files Hin.
    unfold wellGrouped in Hg. rewrite Forall_forall in Hg.
    destruct (Hg _ Hin) as [Hne Hall]. simpl in Hne, Hall.
    pose proof (wellGrouped_branch baseKey files Hne Hall) as Hbranch.
    split; [done|]. split.
    + rewrite Hbranch. by destruct (isMainEntry baseKey).
    + intros Hroot. split; [|split].
      * specialize (Hall Hroot). by rewrite Forall_forall in Hall.
      * by apply wellGrouped_hasFolderPattern; auto.
      * rewrite Hbranch. unfold isMainEntry.
        destruct (String.eqb baseKey ".") eqn:Hk; [|done].
        by apply String.eqb_eq in Hk.
  - intros exports key Hsome Hkey Hroot.
    assert (keysOk exports) as Hok.
    { destruct exportImport as [[|]|l]; simpl in Hsome; try discriminate;
        destruct (0 <? size _); simplify_eq;
        (apply emitGroups_keysOk; [done|]);
        intros k [x Hk]; by rewrite lookup_empty in Hk. }
    destruct (Hok key Hkey); done.
Qed.

Lemma non_root_groups_are_folder_patterns_witness :
  Js.endsWith "./plugins/*" "/*" = true.
Proof.
  destruct (non_root_groups_are_folder_patterns
              [entry "index.mjs"; entry "plugins/vite.mjs"] "dist" (ModeBool true))
    as [_ H].
  apply (H _ "./plugins/*" eq_refl); [|done].
  vm_compute. eauto.
Defined.

(** ** Selective mode *)

(** With a non-empty folder list, an entry whose first segment is not in
    the list is dropped by the grouping loop. *)
Lemma groupEntry_filtered (folders : list string) (entryGroups : EntryGroups)
    (e : BuildEntry) :
  folders ≠ [] →
  arrayHas folders (firstPart (Js.split "/" (pathWithoutExt (path e)))) = false →
  groupEntry (ModeFolders folders) entryGroups e = entryGroups.
Proof.
  intros Hne Hnot. unfold groupEntry. destruct (skippedChunk e); [done|].
  cbv zeta. unfold filteredOut. simpl. rewrite Hnot.
  by destruct folders.
Qed.

Lemma selective_mode_drops_other_folders (folders : list string)
    (before after : list BuildEntry) (e : BuildEntry) (outDir : string) :
  folders ≠ [] →
  arrayHas folders (firstPart (Js.split "/" (pathWithoutExt (path e)))) = false →
  generatePackageExports (before ++ e :: after) outDir (ModeFolders folders) =
  generatePackageExports (before ++ after) outDir (ModeFolders folders).
Proof.
  intros Hne Hnot. apply generatePackageExports_groups.
  unfold groupEntries. rewrite !fold_left_app. simpl.
  by rewrite groupEntry_filtered.
Qed.

(** The documented run: only the plugins folder is exported. *)
Example selective_mode_plugins :
  generatePackageExports
    [entry "index.mjs"; entry "plugins/vite.mjs"; entry "utils/helper.mjs"]
    "dist" (ModeFolders ["plugins"])
  = Some {[ "./plugins/*" := ExportConditions
      {| cond_types := None;
         cond_import := Some {| block_default := Some "./dist/plugins/*.mjs";
                                block_types := None |};
         cond_require := None |} ]}.
Proof. vm_compute. reflexivity. Qed.

(** C6: in selective mode the filter compares the first segment of the
    extension-stripped path with the folder names, also when that segment
    is the whole name of a root-level file.  With mode ["plugins"] the
    root-level entry plugins.mjs is therefore not excluded: it is exported
    under ".", next to the "./plugins/*" pattern. *)
Theorem selective_mode_keeps_named_root_entry :
  generatePackageExports
    [entry "plugins.mjs"; entry "plugins/vite.mjs"; entry "utils/helper.mjs"]
    "dist" (ModeFolders ["plugins"])
  = Some {[ "." := ExportPath "./dist/plugins.mjs";
            "./plugins/*" := ExportConditions
              {| cond_types := None;
                 cond_import := Some {| block_default := Some "./dist/plugins/*.mjs";
                                        block_types := None |};
                 cond_require := None |} ]}.
Proof. vm_compute. reflexivity. Qed.

(** ** More facts about strings *)

Section MoreStringFacts.

Implicit Types (s p x a b suffix : string).

Lemma string_app_cons (c : ascii) a b : String c a +:+ b = String c (a +:+ b).
Proof. reflexivity. Qed.

Lemma string_app_assoc a b x : (a +:+ b) +:+ x = a +:+ b +:+ x.
Proof.
  induction a as [|c a IH]; [done|]. by rewrite !string_app_cons, IH.
Qed.

Lemma string_app_nil_r s : s +:+ "" = s.
Proof. induction s as [|c s IH]; [done|]. by rewrite string_app_cons, IH. Qed.

Lemma string_app_length a b :
  String.length (a +:+ b) = String.length a + String.length b.
Proof.
  induction a as [|c a IH]; [done|]. rewrite string_app_cons. simpl.
  by rewrite IH.
Qed.

Lemma substring_0_app p x : String.substring 0 (String.length p) (p +:+ x) = p.
Proof.
  induction p as [|c p IH].
  - by destruct x.
  - rewrite string_app_cons. simpl. by rewrite IH.
Qed.

Lemma dropEnd_app p suffix : Js.dropEnd (String.length suffix) (p +:+ suffix) = p.
Proof.
  unfold Js.dropEnd. rewrite string_app_length.
  replace (String.length p + String.length suffix - String.length suffix)
    with (String.length p) by lia.
  apply substring_0_app.
Qed.

Lemma sliceFrom_app p x : Js.sliceFrom (String.length p) (p +:+ x) = x.
Proof.
  unfold Js.sliceFrom. rewrite string_app_length.
  replace (String.length p + String.length x - String.length p)
    with (String.length x) by lia.
  induction p as [|c p IH]; [|by rewrite string_app_cons].
  change ("" +:+ x) with x. simpl String.length.
  clear. induction x as [|c x IH]; simpl; [done|]. by rewrite IH.
Qed.

Lemma endsWith_split s suffix :
  Js.endsWith s suffix = true → ∃ p, s = p +:+ suffix.
Proof.
  induction s as [|c s IH].
  - rewrite endsWith_empty_l. intros <-%String.eqb_eq. by exists "".
  - rewrite endsWith_cons. intros [<-%String.eqb_eq|H]%orb_true_iff.
    + by exists "".
    + destruct (IH H) as [p ->]. by exists (String c p).
Qed.

Lemma prefix_app p x : String.prefix p (p +:+ x) = true.
Proof.
  induction p as [|c p IH]; [by destruct x|].
  rewrite string_app_cons. cbn [String.prefix].
  destruct (ascii_dec c c); [done|congruence].
Qed.

Lemma includes_slash_nil : Js.includes "" "/" = false.
Proof. reflexivity. Qed.

Lemma includes_slash_app a b :
  Js.includes (a +:+ b) "/" = Js.includes a "/" || Js.includes b "/".
Proof.
  induction a as [|c a IH]; [done|].
  change (String c a +:+ b) with (String c (a +:+ b)).
  rewrite !includes_slash_cons, IH. apply orb_assoc.
Qed.

Lemma split_single_no_slash s :
  length (Js.split "/" s) ≤ 1 → Js.includes s "/" = false.
Proof.
  induction s as [|c s IH]; [done|].
  rewrite includes_slash_cons. simpl.
  destruct (Ascii.eqb c "/"); simpl.
  - pose proof (split_nonempty "/" s). destruct (Js.split "/" s); simpl; [done|lia].
  - pose proof (split_nonempty "/" s) as Hne.
    destruct (Js.split "/" s) as [|h t]; [done|]. simpl. auto.
Qed.

Lemma split_no_slash s : Js.includes s "/" = false → Js.split "/" s = [s].
Proof.
  induction s as [|c s IH]; [done|].
  rewrite includes_slash_cons. intros [Hc Hs]%orb_false_iff.
  simpl. rewrite Hc. by rewrite (IH Hs).
Qed.

Lemma split_app_slash a x :
  Js.includes a "/" = false →
  Js.split "/" (a +:+ "/" +:+ x) = a :: Js.split "/" x.
Proof.
  induction a as [|c a IH]; [done|].
  rewrite includes_slash_cons. intros [Hc Ha]%orb_false_iff.
  simpl. rewrite Hc. by rewrite (IH Ha).
Qed.

Lemma split_parts_no_slash s :
  Forall (λ part, Js.includes part "/" = false) (Js.split "/" s).
Proof.
  induction s as [|c s IH]; simpl.
  - by constructor.
  - destruct (Ascii.eqb c "/") eqn:Hc; [by constructor|].
    pose proof (split_nonempty "/" s) as Hne.
    destruct (Js.split "/" s) as [|h t]; [done|].
    apply Forall_cons in IH as [Hh Ht]. constructor; [|done].
    by rewrite includes_slash_cons, Hc, Hh.
Qed.

End MoreStringFacts.

(** ** Extensions and logical names *)

Lemma extension_unique (ext ext' : string) (s : string) :
  In ext extensions → In ext' extensions →
  Js.endsWith s ("." +:+ ext) = true → Js.endsWith s ("." +:+ ext') = true →
  ext = ext'.
Proof.
  unfold extensions. simpl. intros Hin Hin' H H'.
  repeat (destruct Hin as [<-|Hin]); try done;
    repeat (destruct Hin' as [<-|Hin']); try done; exfalso; clash.
Qed.

Lemma removeExtension_app_ext (name ext : string) :
  In ext extensions → removeExtension (name +:+ "." +:+ ext) = name.
Proof.
  intros Hin. unfold removeExtension.
  destruct (List.find _ _) as [ext'|] eqn:Hfind.
  - apply find_some in Hfind as [Hin' Hends].
    assert (ext' = ext) as ->.
    { eapply extension_unique; [done..|]. apply endsWith_app. }
    apply (dropEnd_app name ("." +:+ ext)).
  - apply find_none with (x := ext) in Hfind; [|done].
    simpl in Hfind. by rewrite endsWith_app in Hfind.
Qed.

(** X1: normalisation undoes the naming of build outputs.  For each of the
    nine extensions, [removeExtension] of name.ext is name, and
    [pathWithoutExt] sends the declaration file name.d.ext to name; it
    sends name.ext to name as well unless name itself ends in ".d".  A
    module and its declaration files so share one logical name. *)
Theorem normalisation_round_trip (name ext : string) :
  In ext extensions →
  removeExtension (name +:+ "." +:+ ext) = name
  ∧ pathWithoutExt (name +:+ ".d." +:+ ext) = name
  ∧ (Js.endsWith name ".d" = false → pathWithoutExt (name +:+ "." +:+ ext) = name).
Proof.
  intros Hin. split; [by apply removeExtension_app_ext|]. split.
  - unfold pathWithoutExt.
    change (name +:+ ".d." +:+ ext) with (name +:+ ".d" +:+ "." +:+ ext).
    rewrite <- (string_app_assoc name ".d").
    rewrite removeExtension_app_ext by done.
    rewrite endsWith_app. apply (dropEnd_app name ".d").
  - intros Hd. unfold pathWithoutExt.
    rewrite removeExtension_app_ext by done. by rewrite Hd.
Qed.

Lemma normalisation_round_trip_witness :
  removeExtension ("plugins/vite" +:+ "." +:+ "mjs") = "plugins/vite"
  ∧ pathWithoutExt ("plugins/vite" +:+ ".d." +:+ "mts") = "plugins/vite".
Proof.
  assert (In "mjs" extensions) as Hmjs by (unfold extensions; simpl; auto 12).
  assert (In "mts" extensions) as Hmts by (unfold extensions; simpl; auto 12).
  split.
  - exact (proj1 (normalisation_round_trip "plugins/vite" "mjs" Hmjs)).
  - exact (proj1 (proj2 (normalisation_round_trip "plugins/vite" "mts" Hmts))).
Defined.

(** X2: [removeExtension] cuts at most one extension and nothing else:
    either the name ends in none of the nine extensions and is returned
    unchanged, or it is the result followed by a dot and one of them. *)
Theorem removeExtension_cuts_one_extension (filename : string) :
  (removeExtension filename = filename
   ∧ ∀ ext, In ext extensions → Js.endsWith filename ("." +:+ ext) = false)
  ∨ (∃ ext, In ext extensions
            ∧ filename = removeExtension filename +:+ "." +:+ ext).
Proof.
  unfold removeExtension.
  destruct (List.find _ _) as [ext|] eqn:Hfind.
  - right. apply find_some in Hfind as [Hin Hends].
    exists ext. split; [done|].
    apply endsWith_split in Hends as [p ->].
    change (S (String.length ext)) with (String.length ("." +:+ ext)).
    by rewrite dropEnd_app.
  - left. split; [done|]. intros ext Hin.
    by apply find_none with (x := ext) in Hfind.
Qed.

(** ** Trailing slashes and package names *)

(** X3: [withTrailingSlash] always returns a path ending in "/", is
    idempotent, and returns its argument unchanged exactly when that
    already ends in "/". *)
Theorem withTrailingSlash_spec (path : string) :
  Js.endsWith (withTrailingSlash path) "/" = true
  ∧ withTrailingSlash (withTrailingSlash path) = withTrailingSlash path
  ∧ (withTrailingSlash path = path ↔ Js.endsWith path "/" = true).
Proof.
  unfold withTrailingSlash.
  destruct (Js.endsWith path "/") eqn:Hends.
  - rewrite Hends. by repeat split.
  - rewrite endsWith_app. repeat split; try done.
    intros Heq. assert (String.length (path +:+ "/") = String.length path) as Hlen
      by by rewrite Heq.
    rewrite string_app_length in Hlen. simpl in Hlen. lia.
Qed.

Lemma firstPart_no_slash (s : string) :
  Js.includes (firstPart (Js.split "/" s)) "/" = false.
Proof.
  pose proof (split_parts_no_slash s) as H.
  destruct (Js.split "/" s); [done|]. by apply Forall_cons in H as [? _].
Qed.

Lemma second_part_no_slash (s : string) :
  Js.includes (nth 1 (Js.split "/" s) "undefined") "/" = false.
Proof.
  pose proof (split_parts_no_slash s) as H.
  destruct (Js.split "/" s) as [|h [|h' t]]; [done..|].
  apply Forall_cons in H as [_ H]. by apply Forall_cons in H as [? _].
Qed.

(** X4: [getpkg] is idempotent: the package name of a package name is
    itself, for scoped and unscoped ids alike. *)
Theorem getpkg_idempotent (id : string) : getpkg (getpkg id) = getpkg id.
Proof.
  unfold getpkg at 2 3.
  pose proof (firstPart_no_slash id) as H0.
  pose proof (second_part_no_slash id) as H1.
  destruct (startsWith (firstPart (Js.split "/" id)) "@") eqn:Hscoped.
  - unfold getpkg. rewrite split_app_slash by done.
    rewrite (split_no_slash _ H1). simpl. by rewrite Hscoped.
  - unfold getpkg. rewrite (split_no_slash _ H0). simpl. by rewrite Hscoped.
Qed.

(** X5: the shape of [getpkg].  For a scope and a name without slashes,
    "@scope/name" followed by any subpath gives "@scope/name"; a name that
    does not start with "@" followed by any subpath gives the name; and a
    bare "@scope" gives "@scope/undefined", the template rendering of the
    missing second segment. *)
Theorem getpkg_shape (scope name rest : string) :
  Js.includes scope "/" = false → Js.includes name "/" = false →
  getpkg ("@" +:+ scope +:+ "/" +:+ name +:+ "/" +:+ rest) = "@" +:+ scope +:+ "/" +:+ name
  ∧ getpkg ("@" +:+ scope +:+ "/" +:+ name) = "@" +:+ scope +:+ "/" +:+ name
  ∧ getpkg ("@" +:+ scope) = "@" +:+ scope +:+ "/undefined"
  ∧ (startsWith name "@" = false →
       getpkg (name +:+ "/" +:+ rest) = name ∧ getpkg name = name).
Proof.
  intros Hscope Hname.
  assert (Js.includes ("@" +:+ scope) "/" = false) as Hat.
  { change ("@" +:+ scope) with (String "@" scope).
    by rewrite includes_slash_cons, Hscope. }
  assert (startsWith ("@" +:+ scope) "@" = true) as Hstart by apply prefix_app.
  unfold getpkg. split; [|split; [|split]].
  - rewrite <- (string_app_assoc "@" scope), split_app_slash by done.
    rewrite split_app_slash by done. cbn [firstPart hd nth].
    rewrite Hstart. apply (string_app_assoc "@" scope).
  - rewrite <- (string_app_assoc "@" scope), split_app_slash by done.
    rewrite split_no_slash by done. cbn [firstPart hd nth].
    rewrite Hstart. apply (string_app_assoc "@" scope).
  - rewrite split_no_slash by done. cbn [firstPart hd nth].
    rewrite Hstart. apply (string_app_assoc "@" scope).
  - intros Hplain. split.
    + rewrite split_app_slash by done. cbn [firstPart hd]. by rewrite Hplain.
    + rewrite split_no_slash by done. cbn [firstPart hd]. by rewrite Hplain.
Qed.

Lemma getpkg_shape_witness :
  getpkg ("@" +:+ "unjs" +:+ "/" +:+ "unbuild" +:+ "/" +:+ "dist/index.mjs")
  = "@" +:+ "unjs" +:+ "/" +:+ "unbuild"
  ∧ getpkg ("consola" +:+ "/" +:+ "utils") = "consola".
Proof.
  split.
  - exact (proj1 (getpkg_shape "unjs" "unbuild" "dist/index.mjs" eq_refl eq_refl)).
  - destruct (getpkg_shape "unjs" "consola" "utils" eq_refl eq_refl)
      as (_ & _ & _ & H).
    exact (proj1 (H eq_refl)).
Defined.

(** ** More on export-type inference *)

Lemma endsWith_truthy (s suffix : string) :
  suffix ≠ "" → Js.endsWith s suffix = true → Js.truthy s = true.
Proof.
  intros Hne H%endsWith_length. unfold Js.truthy.
  destruct (String.eqb s "") eqn:Hs; [|done].
  apply String.eqb_eq in Hs. subst s. destruct suffix; [done|simpl in H; lia].
Qed.

Lemma inferExportType_unfold (condition : string)
    (previousConditions : list string) (filename : string) :
  inferExportType condition previousConditions filename =
  let byCondition :=
    if String.eqb condition "import" then ESM
    else if String.eqb condition "require" then CJS
    else match previousConditions with
         | [] => ESM
         | newCondition :: rest => inferExportType newCondition rest filename
         end in
  if Js.truthy filename then
    if Js.endsWith filename ".d.ts" then ESM
    else if Js.endsWith filename ".mjs" then ESM
    else if Js.endsWith filename ".cjs" then CJS
    else byCondition
  else byCondition.
Proof. by destruct previousConditions. Qed.

(** X6: the filename dominates.  Whatever the condition and the chain, a
    filename ending in ".cjs" is inferred as CJS, and one ending in ".mjs"
    or ".d.ts" as ESM. *)
Theorem inferExportType_filename_dominates (condition : string)
    (previousConditions : list string) (filename : string) :
  (Js.endsWith filename ".cjs" = true →
     inferExportType condition previousConditions filename = CJS)
  ∧ (Js.endsWith filename ".mjs" = true ∨ Js.endsWith filename ".d.ts" = true →
     inferExportType condition previousConditions filename = ESM).
Proof.
  split.
  - intros H. rewrite inferExportType_unfold. cbv zeta.
    rewrite (endsWith_truthy filename ".cjs") by done. rewrite H.
    destruct (Js.endsWith filename ".d.ts") eqn:H1; [exfalso; clash|].
    destruct (Js.endsWith filename ".mjs") eqn:H2; [exfalso; clash|]. done.
  - intros H. rewrite inferExportType_unfold. cbv zeta.
    destruct H as [H|H].
    + rewrite (endsWith_truthy filename ".mjs") by done. rewrite H.
      by destruct (Js.endsWith filename ".d.ts").
    + rewrite (endsWith_truthy filename ".d.ts") by done. by rewrite H.
Qed.

Lemma inferExportType_filename_dominates_witness :
  inferExportType "import" ["import"] "dist/index.cjs" = CJS
  ∧ inferExportType "require" ["require"] "dist/index.d.ts" = ESM.
Proof.
  split.
  - exact (proj1 (inferExportType_filename_dominates "import" ["import"]
                    "dist/index.cjs") eq_refl).
  - exact (proj2 (inferExportType_filename_dominates "require" ["require"]
                    "dist/index.d.ts") (or_intror eq_refl)).
Defined.

Lemma inferExportType_untyped (condition : string)
    (previousConditions : list string) (filename : string) :
  typedByName filename = false →
  inferExportType condition previousConditions filename =
  if String.eqb condition "import" then ESM
  else if String.eqb condition "require" then CJS
  else match previousConditions with
       | [] => ESM
       | newCondition :: rest => inferExportType newCondition rest filename
       end.
Proof.
  unfold typedByName. intros [[H1 H2]%orb_false_iff H3]%orb_false_iff.
  rewrite inferExportType_unfold. cbv zeta. rewrite H1, H2, H3.
  by destruct (Js.truthy filename).
Qed.

(** X7: without a telling filename (none given, or one that ends in none
    of ".d.ts", ".mjs", ".cjs") the first resolving name decides, looking
    at the condition and then down the chain from its head: "require"
    gives CJS, "import" gives ESM, and ESM is the answer when no name
    resolves. *)
Theorem inferExportType_first_resolving (condition : string)
    (previousConditions : list string) (filename : string) :
  typedByName filename = false →
  inferExportType condition previousConditions filename =
  match List.find resolving (condition :: previousConditions) with
  | Some name => if String.eqb name "require" then CJS else ESM
  | None => ESM
  end.
Proof.
  intros Hname. revert condition.
  induction previousConditions as [|next rest IH]; intros condition;
    rewrite inferExportType_untyped by done; cbn [List.find]; unfold resolving at 1.
  - destruct (String.eqb condition "import") eqn:Hi; simpl.
    + apply String.eqb_eq in Hi. subst. reflexivity.
    + destruct (String.eqb condition "require") eqn:Hr; simpl; by rewrite ?Hr.
  - destruct (String.eqb condition "import") eqn:Hi; simpl.
    + apply String.eqb_eq in Hi. subst. reflexivity.
    + destruct (String.eqb condition "require") eqn:Hr; simpl; [by rewrite Hr|].
      apply IH.
Qed.

Lemma inferExportType_first_resolving_witness :
  inferExportType "node" ["default"; "require"; "import"] "index.js" = CJS.
Proof.
  exact (inferExportType_first_resolving "node" ["default"; "require"; "import"]
           "index.js" eq_refl).
Defined.

(** ** More on flattening *)

Lemma extractExportFilenames_app (l1 l2 : list (string * Exports))
    (conditions : list string) :
  extractExportFilenames (ExportsMapping (l1 ++ l2)) conditions =
  extractExportFilenames (ExportsMapping l1) conditions
  ++ extractExportFilenames (ExportsMapping l2) conditions.
Proof.
  rewrite !extractExportFilenames_mapping.
  by rewrite List.filter_app, flat_map_app.
Qed.

(** X8: flattening distributes over the pairs of a mapping: the result for
    a mapping is the concatenation of the results for any two halves of
    its pairs, a pair whose key ends in ".json" contributes nothing
    whatever its value, and a mapping without pairs gives the empty
    list. *)
Theorem extractExportFilenames_concatenates (l1 l2 : list (string * Exports))
    (key : string) (value : Exports) (conditions : list string) :
  extractExportFilenames (ExportsMapping (l1 ++ l2)) conditions
  = extractExportFilenames (ExportsMapping l1) conditions
    ++ extractExportFilenames (ExportsMapping l2) conditions
  ∧ (Js.endsWith key ".json" = true →
       extractExportFilenames (ExportsMapping (l1 ++ (key, value) :: l2)) conditions
       = extractExportFilenames (ExportsMapping (l1 ++ l2)) conditions)
  ∧ extractExportFilenames (ExportsMapping []) conditions = [].
Proof.
  split; [apply extractExportFilenames_app|]. split; [|done].
  intros Hjson. rewrite !extractExportFilenames_app. f_equal.
  change ((key, value) :: l2) with ([(key, value)] ++ l2).
  rewrite extractExportFilenames_app. simpl. by rewrite Hjson.
Qed.

Lemma extractExportFilenames_concatenates_witness :
  extractExportFilenames
    (ExportsMapping ([("import", ExportsString "a.mjs")]
                     ++ ("./package.json", ExportsString "package.json")
                        :: [("require", ExportsString "a.cjs")])) []
  = extractExportFilenames
      (ExportsMapping ([("import", ExportsString "a.mjs")]
                       ++ [("require", ExportsString "a.cjs")])) [].
Proof.
  exact (proj1 (proj2 (extractExportFilenames_concatenates
           [("import", ExportsString "a.mjs")] [("require", ExportsString "a.cjs")]
           "./package.json" (ExportsString "package.json") [])) eq_refl).
Defined.

(** X9: the chain of conditions only decides types.  The files listed, in
    order, do not depend on the chain the flattening starts from, and every
    entry carries a type. *)
Theorem extractExportFilenames_files (exports : Exports)
    (conditions conditions' : list string) :
  file <$> extractExportFilenames exports conditions
  = file <$> extractExportFilenames exports conditions'
  ∧ Forall (λ d, is_Some (type d)) (extractExportFilenames exports conditions).
Proof.
  revert conditions conditions'.
  induction exports as [|s|entries IH] using Exports_nested_ind;
    intros conditions conditions'.
  - by split.
  - simpl. destruct (Js.truthy s); split; try done. by repeat constructor.
  - rewrite !extractExportFilenames_mapping.
    induction IH as [|[key v] l Hv _ IHl]; [by split|].
    destruct IHl as [IHfiles IHtypes]. simpl.
    destruct (Js.endsWith key ".json"); simpl; [by split|].
    rewrite !fmap_app, IHfiles. split.
    + f_equal. destruct v as [|f|inner]; [done..|]. apply Hv.
    + apply Forall_app. split; [|done].
      destruct v as [|f|inner]; [done| by repeat constructor |]. apply Hv.
      exact conditions.
Qed.

(** ** The grouping loop *)

Lemma groupEntry_spec (exportImport : ExportImport) (entryGroups : EntryGroups)
    (e : BuildEntry) :
  groupEntry exportImport entryGroups e =
  if kept exportImport e then groupPush (keyOfPath (path e)) (path e) entryGroups
  else entryGroups.
Proof.
  unfold groupEntry, kept, keyOfPath. destruct (skippedChunk e); [done|].
  cbv zeta. by destruct (filteredOut _ _).
Qed.

Lemma groupEntry_empty_list (entryGroups : EntryGroups) (e : BuildEntry) :
  groupEntry (ModeFolders []) entryGroups e = groupEntry (ModeBool true) entryGroups e.
Proof. by rewrite !groupEntry_spec. Qed.

(** X10: an empty folder list is full mode: for every entry list and
    outDir the generator returns the same result for mode [[]] as for mode
    [true]. *)
Theorem empty_folder_list_is_full_mode (buildEntries : list BuildEntry)
    (outDir : string) :
  generatePackageExports buildEntries outDir (ModeFolders []) =
  generatePackageExports buildEntries outDir (ModeBool true).
Proof.
  assert (groupEntries (ModeFolders []) buildEntries
          = groupEntries (ModeBool true) buildEntries) as Hgroups.
  { unfold groupEntries. generalize (@nil (string * list string)).
    induction buildEntries as [|e l IH]; intros g; simpl; [done|].
    by rewrite groupEntry_empty_list, IH. }
  unfold generatePackageExports, assembleExports. by rewrite Hgroups.
Qed.

Lemma groupPush_keys (baseKey p : string) (entryGroups : EntryGroups) :
  (groupPush baseKey p entryGroups).*1 =
  if bool_decide (baseKey ∈ entryGroups.*1) then entryGroups.*1
  else entryGroups.*1 ++ [baseKey].
Proof.
  induction entryGroups as [|[k files] rest IH]; csimpl; [done|].
  destruct (String.eqb k baseKey) eqn:Hk; csimpl.
  - apply String.eqb_eq in Hk. subst k.
    rewrite bool_decide_eq_true_2; [done|]. constructor.
  - apply String.eqb_neq in Hk. rewrite IH.
    destruct (bool_decide (baseKey ∈ rest.*1)) eqn:Hin.
    + apply bool_decide_eq_true in Hin.
      rewrite bool_decide_eq_true_2; [done|]. by constructor.
    + apply bool_decide_eq_false in Hin.
      rewrite bool_decide_eq_false_2; [done|].
      intros [?|?]%elem_of_cons; congruence.
Qed.

Lemma groupPush_NoDup (baseKey p : string) (entryGroups : EntryGroups) :
  NoDup entryGroups.*1 → NoDup (groupPush baseKey p entryGroups).*1.
Proof.
  intros Hnd. rewrite groupPush_keys.
  destruct (bool_decide _) eqn:Hin; [done|].
  apply bool_decide_eq_false in Hin.
  apply NoDup_app. split; [done|]. split; [|apply NoDup_singleton].
  intros x Hx ->%list_elem_of_singleton. done.
Qed.

Lemma groupPush_concat (baseKey p : string) (entryGroups : EntryGroups) :
  concat (groupPush baseKey p entryGroups).*2 ≡ₚ p :: concat entryGroups.*2.
Proof.
  induction entryGroups as [|[k files] rest IH]; csimpl; [done|].
  destruct (String.eqb k baseKey); csimpl.
  - rewrite <- app_assoc. simpl. by rewrite <- Permutation_middle.
  - rewrite IH. by rewrite <- Permutation_middle.
Qed.

Lemma groupPush_member (baseKey p : string) (entryGroups : EntryGroups) :
  ∃ files, (baseKey, files) ∈ groupPush baseKey p entryGroups ∧ p ∈ files.
Proof.
  induction entryGroups as [|[k files] rest IH]; simpl.
  - exists [p]. split; constructor.
  - destruct (String.eqb k baseKey) eqn:Hk.
    + apply String.eqb_eq in Hk. subst k. exists (files ++ [p]).
      split; [constructor|]. apply elem_of_app. right. constructor.
    + destruct IH as (files' & Hin & Hp). exists files'. split; [|done].
      by constructor.
Qed.

Lemma groupPush_grows (baseKey p key f : string) (files : list string)
    (entryGroups : EntryGroups) :
  (key, files) ∈ entryGroups → f ∈ files →
  ∃ files', (key, files') ∈ groupPush baseKey p entryGroups ∧ f ∈ files'.
Proof.
  intros Hin Hf.
  induction entryGroups as [|[k fs] rest IH]; simpl; [by apply elem_of_nil in Hin|].
  apply elem_of_cons in Hin as [Heq|Hin].
  - injection Heq as <- <-. destruct (String.eqb key baseKey).
    + exists (files ++ [p]). split; [constructor|]. apply elem_of_app. by left.
    + exists files. split; [constructor|done].
  - destruct (String.eqb k baseKey).
    + exists files. split; [by constructor|done].
    + destruct (IH Hin) as (files' & Hin' & Hf'). exists files'.
      split; [by constructor|done].
Qed.

Lemma groupPush_groupsFrom (exportImport : ExportImport) (entries : list BuildEntry)
    (e : BuildEntry) (entryGroups : EntryGroups) :
  In e entries → kept exportImport e = true →
  groupsFrom exportImport entries entryGroups →
  groupsFrom exportImport entries
    (groupPush (keyOfPath (path e)) (path e) entryGroups).
Proof.
  intros Hin Hkept. unfold groupsFrom.
  induction 1 as [|[k files] rest [Hne Hfiles] Hrest IH]; simpl.
  - constructor; [|constructor]. simpl. split; [done|].
    constructor; [|constructor]. eauto.
  - destruct (String.eqb k (keyOfPath (path e))) eqn:Hk.
    + apply String.eqb_eq in Hk. subst k.
      constructor; [|exact Hrest]. simpl in *. split; [by destruct files|].
      apply Forall_app. split; [done|]. constructor; [|constructor]. eauto.
    + constructor; [done|exact IH].
Qed.

Lemma groupEntries_fold_groupsFrom (exportImport : ExportImport)
    (entries l : list BuildEntry) (g : EntryGroups) :
  (∀ e, In e l → In e entries) →
  groupsFrom exportImport entries g →
  groupsFrom exportImport entries (fold_left (groupEntry exportImport) l g).
Proof.
  revert g. induction l as [|e l IH]; intros g Hsub Hg; simpl; [done|].
  apply IH; [intros x Hx; apply Hsub; by right|].
  rewrite groupEntry_spec. destruct (kept exportImport e) eqn:Hkept; [|done].
  apply groupPush_groupsFrom; [|done..]. apply Hsub. by left.
Qed.

Lemma groupEntries_groupsFrom (exportImport : ExportImport)
    (buildEntries : list BuildEntry) :
  groupsFrom exportImport buildEntries (groupEntries exportImport buildEntries).
Proof.
  apply groupEntries_fold_groupsFrom; [done|constructor].
Qed.

Lemma groupEntries_fold_keys (exportImport : ExportImport) (l : list BuildEntry)
    (g : EntryGroups) :
  NoDup g.*1 → NoDup (fold_left (groupEntry exportImport) l g).*1.
Proof.
  revert g. induction l as [|e l IH]; intros g Hg; simpl; [done|].
  apply IH. rewrite groupEntry_spec. destruct (kept exportImport e); [|done].
  by apply groupPush_NoDup.
Qed.

Lemma groupEntries_fold_concat (exportImport : ExportImport) (l : list BuildEntry)
    (g : EntryGroups) :
  concat (fold_left (groupEntry exportImport) l g).*2
  ≡ₚ concat g.*2 ++ (path <$> List.filter (kept exportImport) l).
Proof.
  revert g. induction l as [|e l IH]; intros g; simpl.
  - by rewrite app_nil_r.
  - rewrite IH, groupEntry_spec. destruct (kept exportImport e); [|done].
    rewrite groupPush_concat. simpl. by rewrite <- Permutation_middle.
Qed.

(** X11: grouping loses and invents nothing.  The group keys are pairwise
    distinct, the members of all groups together are, up to order, the
    paths of the entries that pass the chunk and folder filters, no group
    is empty, and every member sits in the group of its own key. *)
Theorem grouping_partitions_entries (exportImport : ExportImport)
    (buildEntries : list BuildEntry) :
  NoDup (groupEntries exportImport buildEntries).*1
  ∧ concat (groupEntries exportImport buildEntries).*2
    ≡ₚ path <$> List.filter (kept exportImport) buildEntries
  ∧ (∀ baseKey files,
       (baseKey, files) ∈ groupEntries exportImport buildEntries →
       files ≠ [] ∧ ∀ f, f ∈ files → keyOfPath f = baseKey).
Proof.
  split; [|split].
  - apply groupEntries_fold_keys. constructor.
  - unfold groupEntries. by rewrite groupEntries_fold_concat.
  - intros baseKey files Hin.
    pose proof (groupEntries_groupsFrom exportImport buildEntries) as Hg.
    unfold groupsFrom in Hg. rewrite Forall_forall in Hg.
    destruct (Hg _ Hin) as [Hne Hfiles]. split; [done|].
    intros f Hf. rewrite Forall_forall in Hfiles. by destruct (Hfiles f Hf).
Qed.

(** ** Root groups *)

Lemma removeExtension_suffix (f : string) :
  ∃ cut, f = removeExtension f +:+ cut ∧ Js.includes cut "/" = false.
Proof.
  unfold removeExtension.
  destruct (List.find _ _) as [ext|] eqn:Hfind.
  - apply find_some in Hfind as [Hin Hends].
    exists ("." +:+ ext). apply endsWith_split in Hends as [p ->].
    change (S (String.length ext)) with (String.length ("." +:+ ext)).
    rewrite dropEnd_app. split; [done|].
    unfold extensions in Hin. simpl in Hin.
    repeat (destruct Hin as [<-|Hin]; [reflexivity|]). done.
  - exists "". by rewrite string_app_nil_r.
Qed.

Lemma pathWithoutExt_suffix (f : string) :
  ∃ cut, f = pathWithoutExt f +:+ cut ∧ Js.includes cut "/" = false.
Proof.
  destruct (removeExtension_suffix f) as (cut & Hf & Hcut).
  unfold pathWithoutExt.
  destruct (Js.endsWith (removeExtension f) ".d") eqn:Hd; [|eauto].
  destruct (endsWith_split _ _ Hd) as [p Hp].
  exists (".d" +:+ cut). rewrite Hp.
  replace (Js.dropEnd 2 (p +:+ ".d")) with p
    by (symmetry; apply (dropEnd_app p ".d")).
  split.
  - rewrite Hf at 1. rewrite Hp. apply string_app_assoc.
  - by rewrite includes_slash_app, Hcut.
Qed.

Lemma pathWithoutExt_slash_iff (f : string) :
  Js.includes (pathWithoutExt f) "/" = Js.includes f "/".
Proof.
  destruct (pathWithoutExt_suffix f) as (cut & Hf & Hcut).
  rewrite Hf at 2. rewrite includes_slash_app, Hcut. by rewrite orb_false_r.
Qed.

Lemma keyOfPath_root (f : string) :
  keyOfPath f = "." → Js.includes f "/" = false.
Proof.
  unfold keyOfPath, baseKeyOf. destruct (1 <? _) eqn:Hlen; [done|].
  intros _. rewrite <- pathWithoutExt_slash_iff.
  apply split_single_no_slash. apply Nat.ltb_ge in Hlen. lia.
Qed.

Lemma keyOfPath_shape (f : string) :
  (keyOfPath f = "." ∧ Js.includes f "/" = false)
  ∨ (keyOfPath f = "./" +:+ firstPart (Js.split "/" (pathWithoutExt f))
     ∧ Js.includes f "/" = true).
Proof.
  destruct (keyOfPath f =? ".")%string eqn:Hk.
  - apply String.eqb_eq in Hk. left. split; [done|]. by apply keyOfPath_root.
  - apply String.eqb_neq in Hk. right. split.
    + revert Hk. unfold keyOfPath, baseKeyOf. by destruct (1 <? _).
    + by apply baseKeyOf_non_root.
Qed.

Lemma mainFiles_flat (files : list string) :
  Forall (λ f, Js.includes f "/" = false) files → mainFiles files = files.
Proof.
  unfold mainFiles. induction 1 as [|f files Hf _ IH]; simpl; [done|].
  rewrite Hf, orb_true_r. by rewrite IH.
Qed.

Lemma groupsFrom_root (exportImport : ExportImport) (entries : list BuildEntry)
    (entryGroups : EntryGroups) (files : list string) :
  groupsFrom exportImport entries entryGroups → (".", files) ∈ entryGroups →
  Forall (λ f, Js.includes f "/" = false) files.
Proof.
  unfold groupsFrom. rewrite Forall_forall. intros Hg Hin.
  destruct (Hg _ Hin) as [_ Hfiles]. simpl in Hfiles.
  eapply Forall_impl; [exact Hfiles|]. intros f [Hkey _]. by apply keyOfPath_root.
Qed.

(** X12: the root group is flat.  No member of the group "." contains a
    slash, so the main-entry filter of the emission loop keeps every member
    of it: no root-level entry is dropped between grouping and emission. *)
Theorem root_group_is_flat (exportImport : ExportImport)
    (buildEntries : list BuildEntry) (files : list string) :
  (".", files) ∈ groupEntries exportImport buildEntries →
  (∀ f, f ∈ files → Js.includes f "/" = false) ∧ mainFiles files = files.
Proof.
  intros Hin.
  pose proof (groupsFrom_root _ _ _ _
                (groupEntries_groupsFrom exportImport buildEntries) Hin) as Hflat.
  split; [by rewrite Forall_forall in Hflat|by apply mainFiles_flat].
Qed.

Lemma root_group_is_flat_witness :
  mainFiles ["index.mjs"; "index.d.mts"] = ["index.mjs"; "index.d.mts"].
Proof.
  apply (root_group_is_flat (ModeBool true)
           [entry "plugins/vite.mjs"; entry "index.mjs"; entry "index.d.mts"]).
  vm_compute. apply list_elem_of_In. simpl. auto.
Defined.

(** ** When a group is exported *)

Lemma nonEmpty_filter {A} (p : A → bool) (l : list A) :
  nonEmpty (List.filter p l) = existsb p l.
Proof.
  induction l as [|x l IH]; simpl; [done|]. by destruct (p x).
Qed.

Lemma existsb_orb {A} (p q : A → bool) (l : list A) :
  existsb (λ x, p x || q x) l = existsb p l || existsb q l.
Proof.
  induction l as [|x l IH]; simpl; [done|]. rewrite IH.
  destruct (p x), (q x), (existsb p l), (existsb q l); reflexivity.
Qed.

Lemma existsb_classified (files : list string) :
  existsb classified files =
  let t := filesByType files in
  nonEmpty (mjs t) || nonEmpty (cjs t) || hasDeclarationFiles t.
Proof.
  unfold hasDeclarationFiles, filesByType, classified, classSuffixes. simpl.
  rewrite !nonEmpty_filter, <- !existsb_orb.
  induction files as [|f files IH]; simpl; [done|]. rewrite IH.
  f_equal. by rewrite orb_false_r, !orb_assoc.
Qed.

Lemma hasKeys_buildConditions (t : FilesByType) (pmjs pcjs pdts pdmts pdcts : string) :
  hasKeys (ExportConditions (buildConditions t pmjs pcjs pdts pdmts pdcts)) =
  nonEmpty (mjs t) || nonEmpty (cjs t) || hasDeclarationFiles t.
Proof. unfold buildConditions. split_buckets t; reflexivity. Qed.

Lemma hasKeys_literalPath (outDir pre f : string) :
  hasKeys (ExportPath (literalPath outDir pre f)) = true.
Proof. reflexivity. Qed.

Lemma hasKeys_wildcard (files : list string) (outDir folderName : string) :
  hasKeys (generateFolderPatternExportConditions files outDir folderName)
  = existsb classified files.
Proof.
  unfold generateFolderPatternExportConditions. cbv zeta.
  by rewrite hasKeys_buildConditions, existsb_classified.
Qed.

Lemma hasKeys_literal (files : list string) (outDir pre : string) :
  hasKeys (generateExportConditions files outDir pre)
  = existsb classified files
    || (length files =? 1) && negb (Js.includes (first files) ".d.").
Proof.
  rewrite existsb_classified. cbv zeta.
  unfold generateExportConditions. cbv zeta.
  destruct (length files =? 1); cbn [andb negb];
    [|by rewrite hasKeys_buildConditions, orb_false_r].
  destruct (hasDeclarationFiles (filesByType files)) eqn:Hd; cbn [andb negb].
  - rewrite hasKeys_buildConditions, Hd. by rewrite !orb_true_r.
  - destruct (Js.includes (first files) ".d."); cbn [andb negb].
    + by rewrite hasKeys_buildConditions, Hd, !orb_false_r.
    + by rewrite hasKeys_literalPath, orb_true_r.
Qed.

(** X13: what makes a group exported.  The wildcard builder returns a
    non-empty conditions object exactly when some member carries one of the
    five suffixes; the literal builder does so too, and besides exports a
    lone file without ".d." in its path as a bare path, whatever its
    suffix.  Members with other suffixes contribute nothing. *)
Theorem builders_emit_iff_classified (files : list string)
    (outDir pre folderName : string) :
  hasKeys (generateFolderPatternExportConditions files outDir folderName)
  = existsb classified files
  ∧ hasKeys (generateExportConditions files outDir pre)
    = existsb classified files
      || (length files =? 1) && negb (Js.includes (first files) ".d.").
Proof. split; [apply hasKeys_wildcard|apply hasKeys_literal]. Qed.

(** ** The emission loop *)

Lemma string_app_inj_r (a b x : string) : a +:+ x = b +:+ x → a = b.
Proof.
  revert b. induction a as [|c a IH]; intros [|d b] Heq; [done| | |].
  - exfalso. assert (String.length x = String.length (String d b +:+ x)) as Hlen
      by (by rewrite <- Heq).
    rewrite string_app_length in Hlen. simpl in Hlen. lia.
  - exfalso. assert (String.length (String c a +:+ x) = String.length x) as Hlen
      by (by rewrite Heq).
    rewrite string_app_length in Hlen. simpl in Hlen. lia.
  - rewrite !string_app_cons in Heq. injection Heq as -> Heq.
    by rewrite (IH b Heq).
Qed.

Lemma exportKeyOf_inj (k1 k2 : string) : exportKeyOf k1 = exportKeyOf k2 → k1 = k2.
Proof.
  unfold exportKeyOf, isMainEntry.
  destruct (String.eqb k1 ".") eqn:H1, (String.eqb k2 ".") eqn:H2;
    rewrite ?String.eqb_eq in *; intros Heq.
  - congruence.
  - exfalso. assert (String.length "." = String.length (k2 +:+ "/*")) as Hlen
      by (by rewrite Heq).
    rewrite string_app_length in Hlen. simpl in Hlen. lia.
  - exfalso. assert (String.length (k1 +:+ "/*") = String.length ".") as Hlen
      by (by rewrite Heq).
    rewrite string_app_length in Hlen. simpl in Hlen. lia.
  - by apply string_app_inj_r in Heq.
Qed.

Lemma emitGroup_spec (outDir : string) (exports : ExportMap)
    (baseKey : string) (files : list string) :
  files ≠ [] → (baseKey ≠ "." → Forall (λ f, Js.includes f "/" = true) files) →
  emitGroup outDir exports (baseKey, files) =
  if emits outDir baseKey files
  then <[exportKeyOf baseKey := groupValue outDir baseKey files]> exports
  else exports.
Proof.
  intros Hne Hall. unfold emitGroup.
  rewrite (wellGrouped_branch baseKey files Hne Hall).
  unfold emits, groupValue, exportKeyOf, assign.
  destruct (isMainEntry baseKey); [|done].
  by destruct (nonEmpty (mainFiles files)).
Qed.

Lemma emitGroups_other_keys (outDir : string) (entryGroups : EntryGroups)
    (exports : ExportMap) (key : string) :
  wellGrouped entryGroups →
  (∀ baseKey files, (baseKey, files) ∈ entryGroups → exportKeyOf baseKey ≠ key) →
  fold_left (emitGroup outDir) entryGroups exports !! key = exports !! key.
Proof.
  intros Hg. revert exports.
  induction Hg as [|[baseKey files] rest [Hne Hall] _ IH]; intros exports Hkeys;
    cbn [fold_left]; [done|].
  rewrite IH by (intros ???; eapply Hkeys; by constructor).
  rewrite emitGroup_spec by done. destruct (emits _ _ _); [|done].
  apply lookup_insert_ne. eapply Hkeys. constructor.
Qed.

Lemma emitGroups_writes (outDir : string) (entryGroups : EntryGroups)
    (exports : ExportMap) (baseKey : string) (files : list string) :
  wellGrouped entryGroups → NoDup entryGroups.*1 →
  (baseKey, files) ∈ entryGroups → emits outDir baseKey files = true →
  fold_left (emitGroup outDir) entryGroups exports !! exportKeyOf baseKey
  = Some (groupValue outDir baseKey files).
Proof.
  intros Hg. revert exports.
  induction Hg as [|[k fs] rest [Hne Hall] Hrest IH]; intros exports Hnd Hin Hemits;
    [by apply elem_of_nil in Hin|].
  csimpl in Hnd. apply NoDup_cons in Hnd as [Hfresh Hnd]. cbn [fold_left].
  apply elem_of_cons in Hin as [Heq|Hin].
  - injection Heq as <- <-.
    rewrite emitGroups_other_keys; [|done|].
    + rewrite emitGroup_spec by done. rewrite Hemits. apply lookup_insert_eq.
    + intros k' fs' Hin' Hkey. apply exportKeyOf_inj in Hkey. subst k'.
      apply Hfresh. apply list_elem_of_fmap. by exists (baseKey, fs').
  - by apply IH.
Qed.

Lemma emitGroups_inversion (outDir : string) (entryGroups : EntryGroups)
    (exports : ExportMap) (key : string) (v : ExportValue) :
  wellGrouped entryGroups →
  fold_left (emitGroup outDir) entryGroups exports !! key = Some v →
  exports !! key = Some v
  ∨ ∃ baseKey files, (baseKey, files) ∈ entryGroups ∧ key = exportKeyOf baseKey
                     ∧ emits outDir baseKey files = true
                     ∧ v = groupValue outDir baseKey files.
Proof.
  intros Hg. revert exports.
  induction Hg as [|[k fs] rest [Hne Hall] Hrest IH]; intros exports Hlook;
    cbn [fold_left] in Hlook; [by left|].
  apply IH in Hlook as [Hlook|(baseKey & files & Hin & ?)].
  - rewrite emitGroup_spec in Hlook by done.
    destruct (emits outDir k fs) eqn:Hemits; [|by left].
    apply lookup_insert_Some in Hlook as [[<- <-]|[_ Hlook]]; [|by left].
    right. exists k, fs. split; [constructor|done].
  - right. exists baseKey, files. split; [by constructor|done].
Qed.

(** X14: the assembled map has exactly one key per exported group.  A key
    maps to a value exactly when some group of the grouping loop has that
    export key ("." for the root group, the group key followed by "/*"
    otherwise), the group is exported, and the value is what the group's
    builder returns: the literal conditions of the main files for the root
    group, the wildcard conditions of the folder otherwise. *)
Theorem exports_are_the_exported_groups (buildEntries : list BuildEntry)
    (outDir : string) (exportImport : ExportImport) (key : string)
    (v : ExportValue) :
  assembleExports buildEntries outDir exportImport !! key = Some v
  ↔ ∃ baseKey files,
      (baseKey, files) ∈ groupEntries exportImport buildEntries
      ∧ key = exportKeyOf baseKey
      ∧ emits outDir baseKey files = true
      ∧ v = groupValue outDir baseKey files.
Proof.
  pose proof (groupEntries_wellGrouped exportImport buildEntries) as Hg.
  unfold assembleExports. split.
  - intros Hlook. apply emitGroups_inversion in Hlook as [Hlook|?]; [|done..].
    by rewrite lookup_empty in Hlook.
  - intros (baseKey & files & Hin & -> & Hemits & ->).
    apply emitGroups_writes; [done| |done..].
    apply groupEntries_fold_keys. constructor.
Qed.

(** ** Where exported targets come from *)

Lemma leaves_buildConditions (t : FilesByType) (pmjs pcjs pdts pdmts pdcts : string)
    (leaf : string) :
  In leaf (leaves (ExportConditions (buildConditions t pmjs pcjs pdts pdmts pdcts))) →
  (leaf = pmjs ∧ nonEmpty (mjs t) = true)
  ∨ (leaf = pcjs ∧ nonEmpty (cjs t) = true)
  ∨ (leaf = pdts ∧ nonEmpty (dts t) = true)
  ∨ (leaf = pdmts ∧ nonEmpty (dmts t) = true)
  ∨ (leaf = pdcts ∧ nonEmpty (dcts t) = true).
Proof.
  unfold buildConditions. split_buckets t; intuition (subst; auto 10).
Qed.

Lemma first_filter (p : string → bool) (files : list string) :
  nonEmpty (List.filter p files) = true →
  In (first (List.filter p files)) files ∧ p (first (List.filter p files)) = true.
Proof.
  destruct (List.filter p files) as [|f rest] eqn:Hfilter; [done|]. intros _.
  apply filter_In. rewrite Hfilter. by left.
Qed.

Lemma literal_leaves (files : list string) (outDir pre leaf : string) :
  In leaf (leaves (generateExportConditions files outDir pre)) →
  ∃ f, In f files ∧ leaf = literalPath outDir pre f.
Proof.
  destruct (generateExportConditions_cases files outDir pre)
    as [(-> & Hlen & _) | ->].
  - intros [<-|Hnone]; [|done]. exists (first files). split; [|done].
    destruct files as [|f [|]]; try done. by left.
  - intros Hleaf. apply leaves_buildConditions in Hleaf.
    destruct Hleaf as [[-> H]|[[-> H]|[[-> H]|[[-> H]|[-> H]]]]];
      apply first_filter in H as [H _]; eauto.
Qed.

Lemma wildcard_leaves (files : list string) (outDir folderName leaf : string) :
  In leaf (leaves (generateFolderPatternExportConditions files outDir folderName)) →
  ∃ suffix f, In suffix classSuffixes ∧ In f files ∧ Js.endsWith f suffix = true
              ∧ leaf = wildcardPath outDir folderName suffix.
Proof.
  unfold generateFolderPatternExportConditions. cbv zeta.
  intros Hleaf. apply leaves_buildConditions in Hleaf.
  unfold classSuffixes.
  destruct Hleaf as [[-> H]|[[-> H]|[[-> H]|[[-> H]|[-> H]]]]];
    apply first_filter in H as [H Hends];
    eexists _, _; (split; [|split; [exact H|split; [exact Hends|reflexivity]]]);
    simpl; auto 10.
Qed.

Lemma generatePackageExports_Some (buildEntries : list BuildEntry) (outDir : string)
    (exportImport : ExportImport) (exports : ExportMap) :
  generatePackageExports buildEntries outDir exportImport = Some exports →
  exports = assembleExports buildEntries outDir exportImport.
Proof.
  destruct exportImport as [[|]|l]; simpl; try done;
    destruct (0 <? size _); congruence.
Qed.

Lemma groupsFrom_lookup (exportImport : ExportImport) (entries : list BuildEntry)
    (entryGroups : EntryGroups) (baseKey f : string) (files : list string) :
  groupsFrom exportImport entries entryGroups →
  (baseKey, files) ∈ entryGroups → In f files →
  keyOfPath f = baseKey
  ∧ ∃ e, In e entries ∧ kept exportImport e = true ∧ path e = f.
Proof.
  unfold groupsFrom. rewrite Forall_forall. intros Hg Hin Hf.
  destruct (Hg _ Hin) as [_ Hfiles]. simpl in Hfiles.
  rewrite Forall_forall in Hfiles. apply Hfiles. by apply list_elem_of_In.
Qed.

(** X15: every exported target is backed by a build entry.  Each string
    stored under a key of the result comes from an entry that passed the
    filters and whose group has that key: under "." it is
    "./<outDir>/<path>" for the path of a root-level entry, and under a
    wildcard key "./<name>/*" it is "./<outDir>/<name>/*<suffix>" for one
    of the five suffixes, carried by an entry of the folder <name>. *)
Theorem exported_targets_come_from_entries (buildEntries : list BuildEntry)
    (outDir : string) (exportImport : ExportImport) (exports : ExportMap)
    (key leaf : string) (v : ExportValue) :
  generatePackageExports buildEntries outDir exportImport = Some exports →
  exports !! key = Some v → In leaf (leaves v) →
  ∃ e, In e buildEntries ∧ kept exportImport e = true
       ∧ key = exportKeyOf (keyOfPath (path e))
       ∧ ((key = "." ∧ Js.includes (path e) "/" = false
           ∧ leaf = literalPath outDir "" (path e))
          ∨ ∃ name suffix,
              keyOfPath (path e) = "./" +:+ name
              ∧ key = "./" +:+ name +:+ "/*"
              ∧ In suffix classSuffixes
              ∧ Js.endsWith (path e) suffix = true
              ∧ leaf = wildcardPath outDir name suffix).
Proof.
  intros ->%generatePackageExports_Some Hlook Hleaf.
  pose proof (groupEntries_wellGrouped exportImport buildEntries) as Hwell.
  pose proof (groupEntries_groupsFrom exportImport buildEntries) as Hfrom.
  apply emitGroups_inversion in Hlook as [Hlook|Hgroup]; [| |done].
  { by rewrite lookup_empty in Hlook. }
  destruct Hgroup as (baseKey & files & Hin & -> & _ & ->).
  unfold groupValue in Hleaf. unfold exportKeyOf at 1 3.
  destruct (isMainEntry baseKey) eqn:Hmain.
  - apply String.eqb_eq in Hmain. subst baseKey.
    apply literal_leaves in Hleaf as (f & Hf & ->).
    apply filter_In in Hf as [Hf _].
    destruct (groupsFrom_lookup _ _ _ _ _ _ Hfrom Hin Hf) as (Hkey & e & He & Hkept & <-).
    exists e. rewrite Hkey. repeat split; try done.
    left. repeat split. by apply keyOfPath_root.
  - apply wildcard_leaves in Hleaf as (suffix & f & Hsuffix & Hf & Hends & ->).
    destruct (groupsFrom_lookup _ _ _ _ _ _ Hfrom Hin Hf) as (Hkey & e & He & Hkept & <-).
    exists e. rewrite Hkey. unfold exportKeyOf. rewrite Hmain.
    repeat split; try done. right.
    destruct (keyOfPath_shape (path e)) as [[Hroot _]|[Hshape _]].
    { rewrite Hkey in Hroot. rewrite Hroot in Hmain. discriminate Hmain. }
    rewrite Hkey in Hshape. rewrite Hshape.
    eexists _, suffix. split; [reflexivity|]. split; [apply string_app_assoc|].
    repeat split; try done.
    f_equal. apply (sliceFrom_app "./").
Qed.

Lemma exported_targets_come_from_entries_witness :
  ∃ e, In e [entry "index.mjs"; entry "plugins/vite.mjs"]
       ∧ ∃ name suffix, "./plugins/*" = "./" +:+ name +:+ "/*"
                        ∧ Js.endsWith (path e) suffix = true
                        ∧ "./dist/plugins/*.mjs" = wildcardPath "dist" name suffix.
Proof.
  assert (generatePackageExports [entry "index.mjs"; entry "plugins/vite.mjs"]
            "dist" (ModeBool true)
          = Some (assembleExports [entry "index.mjs"; entry "plugins/vite.mjs"]
                    "dist" (ModeBool true))) as Hrun by (vm_compute; reflexivity).
  assert (assembleExports [entry "index.mjs"; entry "plugins/vite.mjs"]
            "dist" (ModeBool true) !! "./plugins/*"
          = Some (generateFolderPatternExportConditions ["plugins/vite.mjs"]
                    "dist" "plugins")) as Hlook by (vm_compute; reflexivity).
  assert (In "./dist/plugins/*.mjs"
            (leaves (generateFolderPatternExportConditions ["plugins/vite.mjs"]
                       "dist" "plugins"))) as Hleaf by (vm_compute; auto).
  destruct (exported_targets_come_from_entries
              [entry "index.mjs"; entry "plugins/vite.mjs"] "dist" (ModeBool true)
              (assembleExports [entry "index.mjs"; entry "plugins/vite.mjs"]
                 "dist" (ModeBool true))
              "./plugins/*" "./dist/plugins/*.mjs"
              (generateFolderPatternExportConditions ["plugins/vite.mjs"]
                 "dist" "plugins")
              Hrun Hlook Hleaf)
    as (e & He & _ & _ & [[Hkey _]|(name & suffix & _ & Hkey & _ & Hends & Hpath)]).
  - discriminate Hkey.
  - exists e. split; [exact He|]. exists name, suffix.
    split; [exact Hkey|]. split; [exact Hends|exact Hpath].
Defined.

(** ** Selective mode, seen from the output *)

Lemma kept_selective (folders : list string) (e : BuildEntry) :
  folders ≠ [] → kept (ModeFolders folders) e = true →
  In (firstPart (Js.split "/" (pathWithoutExt (path e)))) folders.
Proof.
  intros Hne. unfold kept, filteredOut. simpl.
  intros [_ Hfilter]%andb_true_iff. destruct folders as [|x l]; [done|].
  simpl in Hfilter. apply negb_true_iff, negb_false_iff in Hfilter.
  apply orb_true_iff in Hfilter as [->%String.eqb_eq|Hrest]; [by left|].
  right. unfold arrayHas in Hrest.
  apply existsb_exists in Hrest as (y & Hy & ->%String.eqb_eq). done.
Qed.

(** X16: selective mode only exports listed names.  With a non-empty
    folder list, every key of the result is backed by an entry whose first
    path segment (of the normalised path) is in the list: a key other than
    "." is the wildcard key "./<name>/*" of a listed folder, and the key
    "." only appears for a root-level entry whose normalised name is
    listed. *)
Theorem selective_mode_exports_listed_names (buildEntries : list BuildEntry)
    (outDir : string) (folders : list string) (exports : ExportMap) (key : string) :
  folders ≠ [] →
  generatePackageExports buildEntries outDir (ModeFolders folders) = Some exports →
  is_Some (exports !! key) →
  ∃ e name,
    In e buildEntries
    ∧ firstPart (Js.split "/" (pathWithoutExt (path e))) = name
    ∧ In name folders
    ∧ ((key = "." ∧ Js.includes (path e) "/" = false)
       ∨ (key = "./" +:+ name +:+ "/*" ∧ Js.includes (path e) "/" = true)).
Proof.
  intros Hne ->%generatePackageExports_Some [v Hlook].
  pose proof (groupEntries_wellGrouped (ModeFolders folders) buildEntries) as Hwell.
  pose proof (groupEntries_groupsFrom (ModeFolders folders) buildEntries) as Hfrom.
  apply emitGroups_inversion in Hlook as [Hlook|Hgroup]; [| |done].
  { by rewrite lookup_empty in Hlook. }
  destruct Hgroup as (baseKey & files & Hin & -> & _ & _).
  assert (∃ f, In f files) as [f Hf].
  { unfold wellGrouped in Hwell. rewrite Forall_forall in Hwell.
    destruct (Hwell _ Hin) as [Hfiles _]. simpl in Hfiles.
    destruct files as [|f files]; [done|]. exists f. by left. }
  destruct (groupsFrom_lookup _ _ _ _ _ _ Hfrom Hin Hf)
    as (Hkey & e & He & Hkept & <-).
  exists e, (firstPart (Js.split "/" (pathWithoutExt (path e)))).
  split; [done|]. split; [done|]. split; [by apply kept_selective|].
  rewrite <- Hkey. unfold exportKeyOf, isMainEntry.
  destruct (keyOfPath_shape (path e)) as [[-> Hflat]|[-> Hslash]].
  - left. by split.
  - right. split; [apply string_app_assoc|done].
Qed.

Lemma selective_mode_exports_listed_names_witness :
  ∃ e name, In e [entry "index.mjs"; entry "plugins/vite.mjs"; entry "utils/helper.mjs"]
            ∧ In name ["plugins"]
            ∧ "./plugins/*" = "./" +:+ name +:+ "/*".
Proof.
  assert (["plugins"] ≠ []) as Hne by discriminate.
  assert (generatePackageExports
            [entry "index.mjs"; entry "plugins/vite.mjs"; entry "utils/helper.mjs"]
            "dist" (ModeFolders ["plugins"])
          = Some (assembleExports
                    [entry "index.mjs"; entry "plugins/vite.mjs";
                     entry "utils/helper.mjs"]
                    "dist" (ModeFolders ["plugins"]))) as Hrun
    by (vm_compute; reflexivity).
  assert (is_Some (assembleExports
                     [entry "index.mjs"; entry "plugins/vite.mjs";
                      entry "utils/helper.mjs"]
                     "dist" (ModeFolders ["plugins"]) !! "./plugins/*")) as Hkey
    by (vm_compute; eauto).
  destruct (selective_mode_exports_listed_names
              [entry "index.mjs"; entry "plugins/vite.mjs"; entry "utils/helper.mjs"]
              "dist" ["plugins"]
              (assembleExports
                 [entry "index.mjs"; entry "plugins/vite.mjs";
                  entry "utils/helper.mjs"]
                 "dist" (ModeFolders ["plugins"]))
              "./plugins/*" Hne Hrun Hkey)
    as (e & name & He & _ & Hname & [[Hroot _]|[Hwild _]]).
  - discriminate Hroot.
  - exists e, name. split; [exact He|]. split; [exact Hname|exact Hwild].
Defined.

(** ** Completeness of the export map *)

Lemma groupEntries_fold_grows (exportImport : ExportImport) (l : list BuildEntry)
    (g : EntryGroups) (key f : string) (files : list string) :
  (key, files) ∈ g → f ∈ files →
  ∃ files', (key, files') ∈ fold_left (groupEntry exportImport) l g ∧ f ∈ files'.
Proof.
  revert g files. induction l as [|e l IH]; intros g files Hin Hf; simpl; [eauto|].
  rewrite groupEntry_spec. destruct (kept exportImport e); [|by eapply IH].
  destruct (groupPush_grows (keyOfPath (path e)) (path e) key f files g Hin Hf)
    as (files' & Hin' & Hf').
  by eapply IH.
Qed.

Lemma groupEntries_fold_member (exportImport : ExportImport) (l : list BuildEntry)
    (g : EntryGroups) (e : BuildEntry) :
  In e l → kept exportImport e = true →
  ∃ files, (keyOfPath (path e), files) ∈ fold_left (groupEntry exportImport) l g
           ∧ path e ∈ files.
Proof.
  revert g. induction l as [|x l IH]; intros g Hin Hkept; [done|].
  destruct Hin as [->|Hin]; [|by apply IH].
  simpl. rewrite groupEntry_spec, Hkept.
  destruct (groupPush_member (keyOfPath (path e)) (path e) g) as (files & Hin & Hf).
  by eapply groupEntries_fold_grows.
Qed.

(** X17: no classified entry is left out.  Unless the mode is [false],
    every entry that passes the filters and carries one of the five
    suffixes makes the generator return a map, and that map has the export
    key of the entry's group, holding the value built from the group the
    entry is a member of. *)
Theorem classified_entries_are_exported (buildEntries : list BuildEntry)
    (outDir : string) (exportImport : ExportImport) (e : BuildEntry) :
  exportImport ≠ ModeBool false →
  In e buildEntries → kept exportImport e = true → classified (path e) = true →
  ∃ exports files,
    generatePackageExports buildEntries outDir exportImport = Some exports
    ∧ (keyOfPath (path e), files) ∈ groupEntries exportImport buildEntries
    ∧ path e ∈ files
    ∧ exports !! exportKeyOf (keyOfPath (path e))
      = Some (groupValue outDir (keyOfPath (path e)) files).
Proof.
  intros Hmode Hin Hkept Hclass.
  destruct (groupEntries_fold_member exportImport buildEntries [] e Hin Hkept)
    as (files & Hgroup & Hf).
  fold (groupEntries exportImport buildEntries) in Hgroup.
  pose proof (groupEntries_wellGrouped exportImport buildEntries) as Hwell.
  pose proof (groupEntries_groupsFrom exportImport buildEntries) as Hfrom.
  assert (existsb classified files = true) as Hsome.
  { apply existsb_exists. exists (path e). split; [by apply list_elem_of_In|done]. }
  assert (emits outDir (keyOfPath (path e)) files = true) as Hemits.
  { unfold emits, groupValue.
    destruct (isMainEntry (keyOfPath (path e))) eqn:Hmain.
    - apply String.eqb_eq in Hmain. rewrite Hmain in Hgroup.
      rewrite (mainFiles_flat files) by (by eapply groupsFrom_root).
      rewrite hasKeys_literal, Hsome.
      destruct files; [by apply elem_of_nil in Hf|done].
    - by rewrite hasKeys_wildcard. }
  assert (assembleExports buildEntries outDir exportImport
            !! exportKeyOf (keyOfPath (path e))
          = Some (groupValue outDir (keyOfPath (path e)) files)) as Hlook.
  { unfold assembleExports. apply emitGroups_writes; [done| |done..].
    apply groupEntries_fold_keys. constructor. }
  exists (assembleExports buildEntries outDir exportImport), files.
  split; [|done].
  rewrite generatePackageExports_enabled by done. cbv zeta.
  destruct (0 <? size _) eqn:Hsize; [done|].
  apply Nat.ltb_ge in Hsize.
  assert (assembleExports buildEntries outDir exportImport = ∅) as Hempty
    by (apply map_size_empty_iff; lia).
  by rewrite Hempty, lookup_empty in Hlook.
Qed.

Lemma classified_entries_are_exported_witness :
  ∃ exports files,
    generatePackageExports [entry "index.js"; entry "plugins/vite.mjs"] "dist"
      (ModeFolders []) = Some exports
    ∧ exports !! "./plugins/*" = Some (groupValue "dist" "./plugins" files).
Proof.
  assert (ModeFolders [] ≠ ModeBool false) as Hmode by discriminate.
  assert (In (entry "plugins/vite.mjs") [entry "index.js"; entry "plugins/vite.mjs"])
    as Hin by (simpl; auto).
  destruct (classified_entries_are_exported
              [entry "index.js"; entry "plugins/vite.mjs"] "dist" (ModeFolders [])
              (entry "plugins/vite.mjs") Hmode Hin eq_refl eq_refl)
    as (exports & files & Hrun & _ & _ & Hlook).
  exists exports, files. split; [exact Hrun|exact Hlook].
Defined.

(** ** Chunks, seen from the groups and the output *)

Lemma declaration_chunk_kept (exportImport : ExportImport) (e : BuildEntry) :
  Js.includes (path e) ".d." = true →
  filteredOut exportImport (Js.split "/" (pathWithoutExt (path e))) = false →
  kept exportImport e = true.
Proof.
  intros Hd Hfilter. unfold kept, skippedChunk. rewrite Hd, Hfilter.
  by rewrite andb_false_r.
Qed.

Lemma classified_member_is_written (buildEntries : list BuildEntry)
    (outDir : string) (exportImport : ExportImport) (baseKey f : string)
    (files : list string) :
  (baseKey, files) ∈ groupEntries exportImport buildEntries →
  f ∈ files → classified f = true →
  assembleExports buildEntries outDir exportImport !! exportKeyOf baseKey
  = Some (groupValue outDir baseKey files).
Proof.
  intros Hgroup Hf Hclass.
  pose proof (groupEntries_wellGrouped exportImport buildEntries) as Hwell.
  pose proof (groupEntries_groupsFrom exportImport buildEntries) as Hfrom.
  assert (existsb classified files = true) as Hsome.
  { apply existsb_exists. exists f. split; [by apply list_elem_of_In|done]. }
  unfold assembleExports. apply emitGroups_writes; [done| |done|].
  { apply groupEntries_fold_keys. constructor. }
  unfold emits, groupValue. destruct (isMainEntry baseKey) eqn:Hmain.
  - apply String.eqb_eq in Hmain. subst baseKey.
    rewrite (mainFiles_flat files) by (by eapply groupsFrom_root).
    rewrite hasKeys_literal, Hsome.
    destruct files; [by apply elem_of_nil in Hf|done].
  - by rewrite hasKeys_wildcard.
Qed.

Lemma generatePackageExports_of_lookup (buildEntries : list BuildEntry)
    (outDir : string) (exportImport : ExportImport) (key : string)
    (v : ExportValue) :
  exportImport ≠ ModeBool false →
  assembleExports buildEntries outDir exportImport !! key = Some v →
  generatePackageExports buildEntries outDir exportImport
  = Some (assembleExports buildEntries outDir exportImport).
Proof.
  intros Hmode Hlook. rewrite generatePackageExports_enabled by done. cbv zeta.
  destruct (0 <? size _) eqn:Hsize; [done|].
  apply Nat.ltb_ge in Hsize.
  assert (assembleExports buildEntries outDir exportImport = ∅) as Hempty
    by (apply map_size_empty_iff; lia).
  by rewrite Hempty, lookup_empty in Hlook.
Qed.

(** C5: an entry whose [chunk] flag is true and whose path does not contain
    ".d." contributes nothing: removing it from any entry list leaves the
    output unchanged.  A chunk whose path contains ".d." is retained: it is
    processed as the same path without the flag, and when the folder filter
    lets it through its path is a member of the group of its key; if it
    also carries one of the five suffixes, the generator returns a map that
    holds, under the export key of that group, the value built from it.
    For the entries index.mjs and the chunk chunk-1.mjs, outDir "dist" and
    mode [true], the result is exactly the map sending "." to the bare path
    "./dist/index.mjs"; with the declaration chunk index.d.mts instead,
    the result sends "." to a conditions object that carries its types. *)
Theorem chunk_entries (before after : list BuildEntry) (e : BuildEntry)
    (outDir : string) (exportImport : ExportImport) :
  chunk e = Some true →
  (Js.includes (path e) ".d." = false →
     generatePackageExports (before ++ e :: after) outDir exportImport =
     generatePackageExports (before ++ after) outDir exportImport)
  ∧ (Js.includes (path e) ".d." = true →
     generatePackageExports (before ++ e :: after) outDir exportImport =
     generatePackageExports (before ++ entry (path e) :: after) outDir exportImport)
  ∧ generatePackageExports
      [entry "index.mjs"; {| path := "chunk-1.mjs"; chunk := Some true |}]
      "dist" (ModeBool true)
    = Some {[ "." := ExportPath "./dist/index.mjs" ]}
  ∧ (Js.includes (path e) ".d." = true →
     filteredOut exportImport (Js.split "/" (pathWithoutExt (path e))) = false →
     ∃ files,
       (keyOfPath (path e), files)
         ∈ groupEntries exportImport (before ++ e :: after)
       ∧ path e ∈ files
       ∧ (exportImport ≠ ModeBool false → classified (path e) = true →
          ∃ exports,
            generatePackageExports (before ++ e :: after) outDir exportImport
            = Some exports
            ∧ exports !! exportKeyOf (keyOfPath (path e))
              = Some (groupValue outDir (keyOfPath (path e)) files)))
  ∧ generatePackageExports
      [entry "index.mjs"; {| path := "index.d.mts"; chunk := Some true |}]
      "dist" (ModeBool true)
    = Some {[ "." := ExportConditions
        {| cond_types := Some "./dist/index.d.mts";
           cond_import := Some {| block_default := Some "./dist/index.mjs";
                                  block_types := Some "./dist/index.d.mts" |};
           cond_require := None |} ]}.
Proof.
  intros Hchunk. split; [|split; [|split; [|split]]].
  - intros Hd. apply generatePackageExports_groups.
    unfold groupEntries. rewrite !fold_left_app. simpl.
    rewrite groupEntry_skipped; [done|].
    unfold skippedChunk, isChunk. by rewrite Hchunk, Hd.
  - intros Hd. apply generatePackageExports_groups.
    unfold groupEntries. rewrite !fold_left_app. simpl.
    rewrite groupEntry_kept; [done|].
    unfold skippedChunk, isChunk. by rewrite Hchunk, Hd.
  - vm_compute. reflexivity.
  - intros Hd Hfilter.
    pose proof (declaration_chunk_kept exportImport e Hd Hfilter) as Hkept.
    assert (In e (before ++ e :: after)) as Hin by (apply in_elt).
    destruct (groupEntries_fold_member exportImport (before ++ e :: after) [] e
                Hin Hkept) as (files & Hgroup & Hf).
    fold (groupEntries exportImport (before ++ e :: after)) in Hgroup.
    exists files. split; [done|]. split; [done|].
    intros Hmode Hclass.
    pose proof (classified_member_is_written (before ++ e :: after) outDir
                  exportImport _ _ _ Hgroup Hf Hclass) as Hlook.
    exists (assembleExports (before ++ e :: after) outDir exportImport).
    split; [by eapply generatePackageExports_of_lookup|done].
  - vm_compute. reflexivity.
Qed.

Lemma chunk_entries_witness :
  generatePackageExports
    [entry "index.mjs"; {| path := "chunk-1.mjs"; chunk := Some true |}]
    "dist" (ModeBool true)
  = generatePackageExports [entry "index.mjs"] "dist" (ModeBool true)
  ∧ generatePackageExports
      [entry "index.mjs"; {| path := "index.d.mts"; chunk := Some true |}]
      "dist" (ModeBool true)
    = generatePackageExports [entry "index.mjs"; entry "index.d.mts"]
        "dist" (ModeBool true)
  ∧ ∃ files,
      (".", files)
        ∈ groupEntries (ModeBool true)
            [entry "index.mjs"; {| path := "index.d.mts"; chunk := Some true |}]
      ∧ "index.d.mts" ∈ files.
Proof.
  split; [|split].
  - exact (proj1 (chunk_entries [entry "index.mjs"] []
                    {| path := "chunk-1.mjs"; chunk := Some true |} "dist"
                    (ModeBool true) eq_refl) eq_refl).
  - exact (proj1 (proj2 (chunk_entries [entry "index.mjs"] []
                           {| path := "index.d.mts"; chunk := Some true |} "dist"
                           (ModeBool true) eq_refl)) eq_refl).
  - destruct (proj1 (proj2 (proj2 (proj2
                (chunk_entries [entry "index.mjs"] []
                   {| path := "index.d.mts"; chunk := Some true |} "dist"
                   (ModeBool true) eq_refl)))) eq_refl eq_refl)
      as (files & Hgroup & Hf & _).
    exists files. split; [exact Hgroup|exact Hf].
Defined.

(** ** Inferred externals *)

Lemma elem_of_externalStrings (l : list External) (s : string) :
  s ∈ externalStrings l ↔ ExtString s ∈ l.
Proof.
  unfold externalStrings. rewrite list_elem_of_omap. split.
  - intros ([t|r] & Hin & Heq); simplify_eq. done.
  - intros Hin. by exists (ExtString s).
Qed.

Lemma setAdd_test (set : list External) (s : string) :
  existsb (λ y, match y with ExtString t => String.eqb t s | _ => false end) set
  = bool_decide (s ∈ externalStrings set).
Proof.
  induction set as [|[t|r] set IH]; csimpl; [done| |done].
  rewrite IH. destruct (String.eqb t s) eqn:Hts; simpl.
  - apply String.eqb_eq in Hts. subst t.
    symmetry. apply bool_decide_eq_true. constructor.
  - apply String.eqb_neq in Hts. apply bool_decide_ext.
    rewrite elem_of_cons. split; [auto|]. intros [->|Hin]; [done|exact Hin].
Qed.

Lemma elem_of_setAdd (set : list External) (x y : External) :
  y ∈ setAdd set x ↔ y ∈ set ∨ y = x.
Proof.
  unfold setAdd. destruct x as [s|r].
  - rewrite setAdd_test. case_bool_decide as Hin.
    + apply elem_of_externalStrings in Hin. split; [auto|].
      intros [Hy| ->]; [exact Hy|exact Hin].
    + rewrite elem_of_app, list_elem_of_singleton. done.
  - by rewrite elem_of_app, list_elem_of_singleton.
Qed.

Lemma elem_of_fold_setAdd (l set : list External) (y : External) :
  y ∈ fold_left setAdd l set ↔ y ∈ set ∨ y ∈ l.
Proof.
  revert set. induction l as [|x l IH]; intros set; simpl.
  - rewrite elem_of_nil. tauto.
  - rewrite IH, elem_of_setAdd, elem_of_cons. tauto.
Qed.

Lemma externalStrings_app (l1 l2 : list External) :
  externalStrings (l1 ++ l2) = externalStrings l1 ++ externalStrings l2.
Proof. apply omap_app. Qed.

Lemma externalPatterns_app (l1 l2 : list External) :
  externalPatterns (l1 ++ l2) = externalPatterns l1 ++ externalPatterns l2.
Proof. apply omap_app. Qed.

Lemma NoDup_fold_setAdd (l set : list External) :
  NoDup (externalStrings set) → NoDup (externalStrings (fold_left setAdd l set)).
Proof.
  revert set. induction l as [|x l IH]; intros set Hnd; simpl; [done|].
  apply IH. unfold setAdd. destruct x as [s|r].
  - rewrite setAdd_test. case_bool_decide as Hin; [done|].
    rewrite externalStrings_app. simpl.
    apply NoDup_app. split; [done|]. split; [|apply NoDup_singleton].
    intros t Ht ->%list_elem_of_singleton. done.
  - rewrite externalStrings_app. simpl. by rewrite app_nil_r.
Qed.

Lemma externalPatterns_fold_setAdd (l set : list External) :
  externalPatterns (fold_left setAdd l set)
  = externalPatterns set ++ externalPatterns l.
Proof.
  revert set. induction l as [|x l IH]; intros set; simpl.
  - by rewrite app_nil_r.
  - rewrite IH. unfold setAdd. destruct x as [s|r].
    + rewrite setAdd_test. case_bool_decide; [done|].
      rewrite externalPatterns_app. simpl. by rewrite app_nil_r.
    + rewrite externalPatterns_app. simpl. by rewrite <- app_assoc.
Qed.

Lemma elem_of_uniqueExternals (l : list External) (x : External) :
  x ∈ uniqueExternals l ↔ x ∈ l.
Proof.
  unfold uniqueExternals. rewrite elem_of_fold_setAdd, elem_of_nil. tauto.
Qed.

Lemma pathToRegex_is_Some (validPattern : string → bool) (p : string) :
  is_Some (pathToRegex validPattern p) ↔ compiles validPattern p = true.
Proof.
  unfold pathToRegex, compiles.
  destruct (Js.includes p "*"), (validPattern (regexSource p)); simpl;
    (split; [intros [x Hx]|intros Hc]); eauto; done.
Qed.

Lemma pathToRegex_string (validPattern : string → bool) (p s : string) :
  pathToRegex validPattern p = Some (ExtString s) →
  p = s ∧ Js.includes p "*" = false.
Proof.
  unfold pathToRegex. destruct (Js.includes p "*").
  - by destruct (validPattern (regexSource p)).
  - by intros [= ->].
Qed.

Lemma mapM_compose {A B C} (f : B → option C) (g : A → B) (l : list A) :
  mapM (λ x, f (g x)) l = mapM f (g <$> l).
Proof. induction l as [|x l IH]; [done|]. simpl. by rewrite IH. Qed.

Lemma mapM_all_compile (validPattern : string → bool) (paths : list string) :
  is_Some (mapM (pathToRegex validPattern) paths)
  ↔ forallb (compiles validPattern) paths = true.
Proof.
  rewrite mapM_is_Some, forallb_forall, Forall_forall.
  split; intros H p Hp.
  - apply pathToRegex_is_Some, H. by apply list_elem_of_In.
  - apply pathToRegex_is_Some, H. by apply list_elem_of_In.
Qed.

Lemma mapM_pathToRegex_string (validPattern : string → bool)
    (paths : list string) (pushed : list External) (s : string) :
  mapM (pathToRegex validPattern) paths = Some pushed → ExtString s ∈ pushed →
  s ∈ paths ∧ Js.includes s "*" = false.
Proof.
  intros Hall%mapM_Some_1 Hin.
  induction Hall as [|p x paths pushed Hp _ IH]; [by apply elem_of_nil in Hin|].
  apply elem_of_cons in Hin as [<-|Hin].
  - apply pathToRegex_string in Hp as [-> Hstar]. split; [constructor|done].
  - destruct (IH Hin) as [Hs Hstar]. split; [by constructor|done].
Qed.

(** The two loops of [inferPkgExternals] only append to the names pushed
    before them. *)
Lemma collectedExternals_eq (validPattern : string → bool) (pkg : PackageJson) :
  collectedExternals validPattern pkg =
  fromExports ← mapM (pathToRegex validPattern) (exportPaths pkg);
  fromImports ← mapM (pathToRegex validPattern) (importPaths pkg);
  Some (literalExternals pkg ++ fromExports ++ fromImports).
Proof.
  unfold collectedExternals, literalExternals, exportPaths, importPaths.
  cbv zeta.
  generalize (ExtString <$> keysOrEmpty (pkg_dependencies pkg)) as a.
  generalize (ExtString <$> keysOrEmpty (pkg_peerDependencies pkg)) as b.
  generalize (ExtString <$> List.filter (λ dep, startsWith dep "@types/")
                              (keysOrEmpty (pkg_devDependencies pkg))) as c.
  generalize (ExtString <$> keysOrEmpty (pkg_optionalDependencies pkg)) as d.
  intros d c b a.
  assert (∀ (externals literals : list External),
            externals = literals →
            match pkg_imports pkg with
            | Some imports =>
                pushed ← mapM (pathToRegex validPattern)
                           (List.filter (λ importName, startsWith importName "#")
                              imports.*1);
                Some (externals ++ pushed)
            | None => Some externals
            end
            = fromImports ← mapM (pathToRegex validPattern)
                              match pkg_imports pkg with
                              | Some imports =>
                                  List.filter (λ importName, startsWith importName "#")
                                    imports.*1
                              | None => []
                              end;
              Some (literals ++ fromImports)) as Himports.
  { intros externals literals ->. destruct (pkg_imports pkg) as [imports|].
    - done.
    - cbn [mapM mret option_ret mbind option_bind]. by rewrite app_nil_r. }
  destruct (pkg_name pkg) as [name|].
  - destruct (Js.truthy name).
    + destruct (exportsTruthy (pkg_exports pkg)); cbn [andb].
      * rewrite mapM_compose.
        destruct (mapM (pathToRegex validPattern) (_ <$> _)) as [fromExports|];
          [|done].
        cbn [mbind option_bind].
        rewrite (Himports _ ((a ++ b ++ c ++ d ++ [ExtString name]) ++ fromExports))
          by (by rewrite <- !app_assoc).
        destruct (mapM _ _) as [fromImports|]; [|done].
        cbn [mbind option_bind]. f_equal. by rewrite <- !app_assoc.
      * cbn [mapM mret option_ret mbind option_bind].
        rewrite (Himports _ (a ++ b ++ c ++ d ++ [ExtString name]))
          by (by rewrite <- !app_assoc).
        by destruct (mapM _ _).
    + cbn [andb mapM mret option_ret mbind option_bind].
      rewrite (Himports _ (a ++ b ++ c ++ d ++ [])) by (by rewrite app_nil_r).
      by destruct (mapM _ _).
  - cbn [mapM mret option_ret mbind option_bind].
    rewrite (Himports _ (a ++ b ++ c ++ d ++ [])) by (by rewrite app_nil_r).
    by destruct (mapM _ _).
Qed.

Lemma collectedExternals_Some (validPattern : string → bool) (pkg : PackageJson)
    (collected : list External) :
  collectedExternals validPattern pkg = Some collected ↔
  ∃ fromExports fromImports,
    mapM (pathToRegex validPattern) (exportPaths pkg) = Some fromExports
    ∧ mapM (pathToRegex validPattern) (importPaths pkg) = Some fromImports
    ∧ collected = literalExternals pkg ++ fromExports ++ fromImports.
Proof.
  rewrite collectedExternals_eq.
  destruct (mapM _ (exportPaths pkg)) as [fromExports|]; simpl;
    [destruct (mapM _ (importPaths pkg)) as [fromImports|]; simpl|].
  - split; [intros [= <-]; eauto|]. by intros (? & ? & [= <-] & [= <-] & ->).
  - split; [done|]. by intros (? & ? & _ & ? & _).
  - split; [done|]. by intros (? & ? & ? & _).
Qed.

Lemma collectedExternals_is_Some (validPattern : string → bool) (pkg : PackageJson) :
  is_Some (collectedExternals validPattern pkg)
  ↔ forallb (compiles validPattern) (regexPaths pkg) = true.
Proof.
  unfold regexPaths. rewrite forallb_app, andb_true_iff, <- !mapM_all_compile.
  split.
  - intros [collected (fromExports & fromImports & -> & -> & _)%collectedExternals_Some].
    split; eauto.
  - intros [[fromExports Hexports] [fromImports Himports]].
    exists (literalExternals pkg ++ fromExports ++ fromImports).
    apply collectedExternals_Some. eauto.
Qed.

Lemma inferPkgExternals_Some (validPattern : string → bool) (pkg : PackageJson)
    (externals : list External) :
  inferPkgExternals validPattern pkg = Some externals ↔
  ∃ collected, collectedExternals validPattern pkg = Some collected
               ∧ externals = uniqueExternals collected.
Proof.
  unfold inferPkgExternals.
  destruct (collectedExternals validPattern pkg) as [collected|]; simpl.
  - split; [intros [= <-]; eauto|]. by intros (? & [= <-] & ->).
  - split; [done|]. by intros (? & ? & _).
Qed.

Lemma forallb_false {A} (f : A → bool) (l : list A) :
  forallb f l = false → ∃ x, In x l ∧ f x = false.
Proof.
  induction l as [|x l IH]; simpl; [done|].
  destruct (f x) eqn:Hx; simpl.
  - intros (y & Hy & Hfy)%IH. eauto.
  - intros _. eauto.
Qed.

(** X18: when [inferPkgExternals] returns, and what the [Set] does.  The
    call returns a list exactly when every path it hands to [pathToRegex]
    has no star or a pattern that [new RegExp] accepts; otherwise the
    [SyntaxError] ends it.  In a returned list no string occurs twice, its
    members are those of the collected array, and the regular expressions,
    each a fresh object, all survive in their order. *)
Theorem inferPkgExternals_is_duplicate_free (validPattern : string → bool)
    (pkg : PackageJson) :
  (is_Some (inferPkgExternals validPattern pkg)
   ↔ forallb (compiles validPattern) (regexPaths pkg) = true)
  ∧ (inferPkgExternals validPattern pkg = None
     ↔ ∃ path, path ∈ regexPaths pkg ∧ Js.includes path "*" = true
               ∧ validPattern (regexSource path) = false)
  ∧ ∀ externals,
      inferPkgExternals validPattern pkg = Some externals →
      NoDup (externalStrings externals)
      ∧ ∃ collected,
          collectedExternals validPattern pkg = Some collected
          ∧ (∀ x, x ∈ externals ↔ x ∈ collected)
          ∧ externalPatterns externals = externalPatterns collected.
Proof.
  assert (is_Some (inferPkgExternals validPattern pkg)
          ↔ forallb (compiles validPattern) (regexPaths pkg) = true) as Hsome.
  { rewrite <- collectedExternals_is_Some. unfold inferPkgExternals.
    by rewrite fmap_is_Some. }
  split; [exact Hsome|]. split.
  - rewrite eq_None_not_Some, Hsome. split.
    + intros Hnot.
      destruct (forallb (compiles validPattern) (regexPaths pkg)) eqn:Hall; [done|].
      apply forallb_false in Hall as (path & Hpath & Hbad).
      unfold compiles in Hbad. apply orb_false_iff in Hbad as [Hstar Hpattern].
      exists path. split; [by apply list_elem_of_In|].
      by rewrite negb_false_iff in Hstar.
    + intros (path & Hpath & Hstar & Hpattern) Hall.
      rewrite forallb_forall in Hall.
      apply list_elem_of_In, Hall in Hpath. unfold compiles in Hpath.
      by rewrite Hstar, Hpattern in Hpath.
  - intros externals (collected & Hcollected & ->)%inferPkgExternals_Some.
    split; [apply NoDup_fold_setAdd; constructor|].
    exists collected. split; [done|]. split.
    + intros x. apply elem_of_uniqueExternals.
    + unfold uniqueExternals. by rewrite externalPatterns_fold_setAdd.
Qed.

Lemma inferPkgExternals_is_duplicate_free_witness :
  NoDup (externalStrings [ExtString "test"; ExtRegExp "^test/drivers/.*$"]).
Proof.
  apply (inferPkgExternals_is_duplicate_free (λ _, true)
           {| pkg_name := Some "test";
              pkg_dependencies := Some [("test", "1.0.0")];
              pkg_peerDependencies := None;
              pkg_devDependencies := None;
              pkg_optionalDependencies := None;
              pkg_exports := ExportsMapping [("./drivers/*", ExportsString "d/*")];
              pkg_imports := None |}).
  reflexivity.
Defined.

(** A subpath that is not a pattern: whatever else the engine accepts, if
    it rejects "^n/c++/.*$" then the call for this manifest throws. *)
Example inferPkgExternals_syntax_error (validPattern : string → bool) :
  validPattern "^n/c++/.*$" = false →
  inferPkgExternals validPattern
    {| pkg_name := Some "n";
       pkg_dependencies := Some [("react", "17.0.0")];
       pkg_peerDependencies := None;
       pkg_devDependencies := None;
       pkg_optionalDependencies := None;
       pkg_exports := ExportsMapping [("./c++/*", ExportsString "./dist/c++/*")];
       pkg_imports := None |} = None.
Proof.
  intros Hreject. unfold inferPkgExternals.
  destruct (collectedExternals _ _) as [collected|] eqn:Hcollected; [|done].
  assert (is_Some (collectedExternals validPattern
            {| pkg_name := Some "n";
               pkg_dependencies := Some [("react", "17.0.0")];
               pkg_peerDependencies := None;
               pkg_devDependencies := None;
               pkg_optionalDependencies := None;
               pkg_exports := ExportsMapping [("./c++/*", ExportsString "./dist/c++/*")];
               pkg_imports := None |})) as Hsome by eauto.
  apply collectedExternals_is_Some in Hsome. vm_compute in Hsome.
  rewrite Hreject in Hsome. discriminate Hsome.
Qed.

Lemma arrayIncludes_string (regexTest : string → string → bool)
    (arr : list External) (s : string) :
  ExtString s ∈ arr → arrayIncludes regexTest arr s = true.
Proof.
  intros Hin. unfold arrayIncludes. apply existsb_exists.
  exists (ExtString s). split; [by apply list_elem_of_In|].
  apply String.eqb_refl.
Qed.

Lemma elem_of_bool_filter {A} (p : A → bool) (l : list A) (x : A) :
  x ∈ List.filter p l ↔ x ∈ l ∧ p x = true.
Proof. by rewrite !list_elem_of_In, filter_In. Qed.

Lemma elem_of_literalExternals (pkg : PackageJson) (s : string) :
  ExtString s ∈ literalExternals pkg ↔
  s ∈ keysOrEmpty (pkg_dependencies pkg)
  ∨ s ∈ keysOrEmpty (pkg_peerDependencies pkg)
  ∨ (s ∈ keysOrEmpty (pkg_devDependencies pkg) ∧ startsWith s "@types/" = true)
  ∨ s ∈ keysOrEmpty (pkg_optionalDependencies pkg)
  ∨ (pkg_name pkg = Some s ∧ s ≠ "").
Proof.
  assert (∀ l : list string, ExtString s ∈ ExtString <$> l ↔ s ∈ l) as Hfmap.
  { intros l. rewrite list_elem_of_fmap. split; [by intros (x & [= <-] & Hx)|].
    intros Hs. by exists s. }
  assert (ExtString s ∈ match pkg_name pkg with
                        | Some name => if Js.truthy name then [ExtString name] else []
                        | None => []
                        end
          ↔ pkg_name pkg = Some s ∧ s ≠ "") as Hname.
  { destruct (pkg_name pkg) as [name|]; [|rewrite elem_of_nil; by split; [|intros []]].
    unfold Js.truthy. destruct (String.eqb name "") eqn:Hempty; simpl.
    - apply String.eqb_eq in Hempty. subst name. rewrite elem_of_nil.
      split; [done|]. by intros [[= <-] ?].
    - apply String.eqb_neq in Hempty. rewrite list_elem_of_singleton.
      split; [by intros [= <-]|]. by intros [[= <-] _]. }
  unfold literalExternals. rewrite !elem_of_app, !Hfmap, elem_of_bool_filter, Hname.
  tauto.
Qed.

(** X19: what is always external.  When every path handed to
    [pathToRegex] has no star or an accepted pattern, [inferPkgExternals]
    returns a list, and on that list [arrayIncludes] accepts, whatever the
    regular-expression engine answers, every key of dependencies,
    peerDependencies and optionalDependencies, every key of
    devDependencies that starts with "@types/", and the package's own
    non-empty name. *)
Theorem dependencies_are_external (regexTest : string → string → bool)
    (validPattern : string → bool) (pkg : PackageJson) (dep : string) :
  forallb (compiles validPattern) (regexPaths pkg) = true →
  dep ∈ keysOrEmpty (pkg_dependencies pkg)
  ∨ dep ∈ keysOrEmpty (pkg_peerDependencies pkg)
  ∨ dep ∈ keysOrEmpty (pkg_optionalDependencies pkg)
  ∨ (dep ∈ keysOrEmpty (pkg_devDependencies pkg) ∧ startsWith dep "@types/" = true)
  ∨ (pkg_name pkg = Some dep ∧ dep ≠ "") →
  ∃ externals,
    inferPkgExternals validPattern pkg = Some externals
    ∧ arrayIncludes regexTest externals dep = true.
Proof.
  intros Hvalid Hdep.
  apply collectedExternals_is_Some in Hvalid as [collected Hcollected].
  exists (uniqueExternals collected). split.
  { apply inferPkgExternals_Some. eauto. }
  apply arrayIncludes_string, elem_of_uniqueExternals.
  apply collectedExternals_Some in Hcollected as (fromExports & fromImports & _ & _ & ->).
  apply elem_of_app. left. apply elem_of_literalExternals. tauto.
Qed.

Lemma dependencies_are_external_witness :
  ∃ externals,
    inferPkgExternals (λ _, true)
      {| pkg_name := Some "test";
         pkg_dependencies := Some [("react", "17.0.0")];
         pkg_peerDependencies := None;
         pkg_devDependencies := Some [("@types/react", "17.0.0"); ("webpack", "*")];
         pkg_optionalDependencies := None;
         pkg_exports := ExportsMapping [("./drivers/*.js", ExportsString "drivers/*.js")];
         pkg_imports := None |} = Some externals
    ∧ arrayIncludes (λ _ _, false) externals "@types/react" = true.
Proof.
  apply dependencies_are_external; [reflexivity|].
  do 3 right. left. split; [|reflexivity].
  simpl. apply list_elem_of_In. simpl. auto.
Defined.

(** X20: a literal external always has a source.  A string is in a list
    returned by [inferPkgExternals] only if it is a key of dependencies,
    peerDependencies or optionalDependencies, a key of devDependencies
    that starts with "@types/", the package's non-empty name, that name
    followed by "/" and a "./" subpath of a truthy exports field without
    its "./" (when the result has no "*"), or an imports key that starts
    with "#" and has no "*".  In particular a devDependency outside
    "@types/" is never external on its own account. *)
Theorem string_externals_have_a_source (validPattern : string → bool)
    (pkg : PackageJson) (externals : list External) (s : string) :
  inferPkgExternals validPattern pkg = Some externals →
  ExtString s ∈ externals →
  s ∈ keysOrEmpty (pkg_dependencies pkg)
  ∨ s ∈ keysOrEmpty (pkg_peerDependencies pkg)
  ∨ (s ∈ keysOrEmpty (pkg_devDependencies pkg) ∧ startsWith s "@types/" = true)
  ∨ s ∈ keysOrEmpty (pkg_optionalDependencies pkg)
  ∨ (pkg_name pkg = Some s ∧ s ≠ "")
  ∨ (∃ name subpath,
       pkg_name pkg = Some name ∧ name ≠ ""
       ∧ exportsTruthy (pkg_exports pkg) = true
       ∧ subpath ∈ exportsKeys (pkg_exports pkg)
       ∧ startsWith subpath "./" = true
       ∧ s = name +:+ "/" +:+ Js.sliceFrom 2 subpath
       ∧ Js.includes s "*" = false)
  ∨ (∃ imports, pkg_imports pkg = Some imports
                ∧ s ∈ imports.*1 ∧ startsWith s "#" = true
                ∧ Js.includes s "*" = false).
Proof.
  intros (collected & Hcollected & ->)%inferPkgExternals_Some Hin.
  rewrite elem_of_uniqueExternals in Hin.
  apply collectedExternals_Some in Hcollected
    as (fromExports & fromImports & Hexports & Himports & ->).
  rewrite !elem_of_app in Hin. destruct Hin as [Hlit|[Hexp|Himp]].
  - apply elem_of_literalExternals in Hlit. tauto.
  - destruct (mapM_pathToRegex_string _ _ _ _ Hexports Hexp) as [Hpath Hstar].
    do 5 right. left. unfold exportPaths in Hpath.
    destruct (pkg_name pkg) as [name|]; [|by apply elem_of_nil in Hpath].
    destruct (Js.truthy name) eqn:Htruthy; [|by apply elem_of_nil in Hpath].
    destruct (exportsTruthy (pkg_exports pkg)) eqn:Htruthy';
      [|by apply elem_of_nil in Hpath].
    simpl in Hpath. apply list_elem_of_fmap in Hpath as (subpath & -> & Hsub).
    apply elem_of_bool_filter in Hsub as [Hsub Hdot].
    exists name, subpath. repeat split; try done.
    intros ->. discriminate Htruthy.
  - destruct (mapM_pathToRegex_string _ _ _ _ Himports Himp) as [Hpath Hstar].
    do 6 right. unfold importPaths in Hpath.
    destruct (pkg_imports pkg) as [imports|]; [|by apply elem_of_nil in Hpath].
    apply elem_of_bool_filter in Hpath as [Hpath Hhash].
    by exists imports.
Qed.

Lemma string_externals_have_a_source_witness :
  "#test" ∈ keysOrEmpty (Some [("react", "17.0.0")])
  ∨ "#test" ∈ keysOrEmpty (@None (list (string * string)))
  ∨ ("#test" ∈ keysOrEmpty (Some [("webpack", "*")])
     ∧ startsWith "#test" "@types/" = true)
  ∨ "#test" ∈ keysOrEmpty (@None (list (string * string)))
  ∨ (Some "test" = Some "#test" ∧ "#test" ≠ "")
  ∨ (∃ name subpath,
       Some "test" = Some name ∧ name ≠ ""
       ∧ exportsTruthy ExportsUndefined = true
       ∧ subpath ∈ exportsKeys ExportsUndefined
       ∧ startsWith subpath "./" = true
       ∧ "#test" = name +:+ "/" +:+ Js.sliceFrom 2 subpath
       ∧ Js.includes "#test" "*" = false)
  ∨ (∃ imports, Some [("#*", ExportsString "src/*"); ("#test", ExportsString "test.js")]
                = Some imports
                ∧ "#test" ∈ imports.*1 ∧ startsWith "#test" "#" = true
                ∧ Js.includes "#test" "*" = false).
Proof.
  apply (string_externals_have_a_source (λ _, true)
           {| pkg_name := Some "test";
              pkg_dependencies := Some [("react", "17.0.0")];
              pkg_peerDependencies := None;
              pkg_devDependencies := Some [("webpack", "*")];
              pkg_optionalDependencies := None;
              pkg_exports := ExportsUndefined;
              pkg_imports := Some [("#*", ExportsString "src/*");
                                   ("#test", ExportsString "test.js")] |}
           [ExtString "react"; ExtString "test"; ExtRegExp "^#.*$"; ExtString "#test"]).
  - reflexivity.
  - apply list_elem_of_In. simpl. auto.
Defined.

(** ** Warnings *)

Lemma warn_seen (ctx : WarnContext) (message : string) :
  message ∈ warnings ctx → warn ctx message = ctx.
Proof. intros H. unfold warn. by rewrite bool_decide_eq_true_2. Qed.

Lemma warn_new (ctx : WarnContext) (message : string) :
  message ∉ warnings ctx →
  warn ctx message = {| warnings := {[ message ]} ∪ warnings ctx;
                        debugged := debugged ctx ++ [message] |}.
Proof. intros H. unfold warn. by rewrite bool_decide_eq_false_2. Qed.

Lemma warn_fold (msgs : list string) (ctx : WarnContext) :
  warnings (fold_left warn msgs ctx) = warnings ctx ∪ list_to_set msgs
  ∧ ∃ new, debugged (fold_left warn msgs ctx) = debugged ctx ++ new
           ∧ NoDup new
           ∧ ∀ m, m ∈ new ↔ m ∈ msgs ∧ m ∉ warnings ctx.
Proof.
  revert ctx. induction msgs as [|msg msgs IH]; intros ctx; cbn [fold_left].
  - split; [by rewrite list_to_set_nil, (right_id_L ∅ (∪))|].
    exists []. rewrite app_nil_r. split; [done|]. split; [constructor|].
    intros m. rewrite !elem_of_nil. tauto.
  - destruct (decide (msg ∈ warnings ctx)) as [Hseen|Hfresh].
    + rewrite warn_seen by done.
      destruct (IH ctx) as (Hset & new & Hlog & Hnd & Hnew).
      split.
      * rewrite Hset, list_to_set_cons. apply set_eq. intros x.
        rewrite !elem_of_union, elem_of_singleton. split; [tauto|].
        intros [Hx|[->|Hx]]; tauto.
      * exists new. split; [done|]. split; [done|].
        intros m. rewrite Hnew, elem_of_cons. split; [tauto|].
        intros [[->|Hm] Hm']; [done|tauto].
    + rewrite warn_new by done.
      destruct (IH {| warnings := {[ msg ]} ∪ warnings ctx;
                      debugged := debugged ctx ++ [msg] |})
        as (Hset & new & Hlog & Hnd & Hnew).
      cbn [warnings debugged] in Hset, Hlog, Hnew.
      split.
      * rewrite Hset, list_to_set_cons. apply set_eq. intros x.
        rewrite !elem_of_union, elem_of_singleton. tauto.
      * exists (msg :: new). split; [by rewrite Hlog, <- app_assoc|]. split.
        -- constructor; [|done]. rewrite Hnew, elem_of_union, elem_of_singleton.
           tauto.
        -- intros m. rewrite !elem_of_cons, Hnew, elem_of_union, elem_of_singleton.
           destruct (decide (m = msg)) as [->|Hne]; tauto.
Qed.

(** X21: every warning is reported once.  After any sequence of calls of
    [warn], a message is in the [warnings] set exactly when it was there
    before or was passed in; the messages handed to [consola.debug] by
    these calls are pairwise distinct and are exactly the passed messages
    that were not in the set before.  A second [warn] with the same
    message changes nothing. *)
Theorem warn_reports_each_message_once (msgs : list string) (ctx : WarnContext)
    (message : string) :
  (warnings (fold_left warn msgs ctx) = warnings ctx ∪ list_to_set msgs
   ∧ ∃ new, debugged (fold_left warn msgs ctx) = debugged ctx ++ new
            ∧ NoDup new
            ∧ ∀ m, m ∈ new ↔ m ∈ msgs ∧ m ∉ warnings ctx)
  ∧ warn (warn ctx message) message = warn ctx message.
Proof.
  split; [apply warn_fold|].
  destruct (decide (message ∈ warnings ctx)) as [Hseen|Hfresh].
  - rewrite (warn_seen ctx) by done. by apply warn_seen.
  - rewrite (warn_new ctx) by done. apply warn_seen. cbn [warnings].
    apply elem_of_union. left. by apply elem_of_singleton.
Qed.
